(** * Photon: the edit history, the data-URL codec, the response parser
    and the image normaliser of the editor, embedded from
    [components/ImageEditor.tsx] and [services/geminiService.ts].

    JavaScript strings are modelled by [string]: every code unit that the
    code inspects (comma, colon, semicolon, line terminators, white space)
    lies in the 8-bit range, and code units above 255 are outside the model.
    Array indices are modelled by [Z].  The canvas geometry is computed in
    binary64, the arithmetic of JavaScript numbers ([SpecFloat]); the same
    expressions are also read in exact arithmetic over [Q].

    What the code awaits from outside (the file reader, the image decoder,
    the canvas encoder, the remote call, [JSON.parse]) is a parameter of
    the functions that use it. *)

From Stdlib Require Import ZArith QArith List String Ascii Bool Lia Lqa.
From Stdlib Require Import Floats.SpecFloat.
From Stdlib Require Import DecimalString.
Import ListNotations.

Local Open Scope string_scope.
Local Open Scope Z_scope.

(* ================================================================== *)
(** ** JavaScript primitives used by the component *)

Module Js.

(** [Boolean(s)] for a string: the empty string is falsy. *)
Definition truthy (s : string) : bool :=
  match s with EmptyString => false | _ => true end.

(** [Boolean(v)] for a value that may be [undefined] or [null]. *)
Definition truthy_opt (v : option string) : bool :=
  match v with Some s => truthy s | None => false end.

(** [arr[i]]: [undefined] outside [0 .. length-1]. *)
Definition index {A} (arr : list A) (i : Z) : option A :=
  if i <? 0 then None else nth_error arr (Z.to_nat i).

(** [arr.length]. *)
Definition length {A} (arr : list A) : Z := Z.of_nat (List.length arr).

(** [arr.slice(0, e)]: a negative [e] counts from the end, and the
    bound is clamped to [0 .. length]. *)
Definition slice0 {A} (arr : list A) (e : Z) : list A :=
  let len := length arr in
  let final := if e <? 0 then Z.max (len + e) 0 else Z.min e len in
  firstn (Z.to_nat final) arr.

(** White space and line terminators stripped by [String.prototype.trim]
    (those below 256). *)
Definition is_space (c : ascii) : bool :=
  let n := nat_of_ascii c in
  ((9 <=? n) && (n <=? 13))%nat || (n =? 32)%nat || (n =? 160)%nat.

Fixpoint trim_start (s : string) : string :=
  match s with
  | String c r => if is_space c then trim_start r else s
  | EmptyString => EmptyString
  end.

(** Right trim: a white-space character is dropped when everything after
    it has been dropped. *)
Fixpoint trim_end (s : string) : string :=
  match s with
  | String c r =>
      match trim_end r with
      | EmptyString => if is_space c then EmptyString else String c EmptyString
      | r' => String c r'
      end
  | EmptyString => EmptyString
  end.

Definition trim (s : string) : string := trim_end (trim_start s).

End Js.

(* ================================================================== *)
(** ** Thrown values and the exception discipline of [async] functions *)

Module Exn.

(** A value that is thrown, or that a promise is rejected with, as far as
    the code looks at it: [instanceof Error], truthiness, and
    [typeof v.message === 'string']. *)
Inductive Thrown :=
| ErrorObj (message : string)        (* [new Error(message)] and the built-in errors *)
| Object (message : option string)   (* any other truthy value, with its string [message] if it has one *)
| Falsy.                             (* [undefined], [null], [0], ... *)

(** A computation that returns or throws. *)
Definition t (A : Type) : Type := (Thrown + A)%type.

Definition ret {A} (a : A) : t A := inr a.
Definition throw {A} (e : Thrown) : t A := inl e.

Definition bind {A B} (m : t A) (k : A -> t B) : t B :=
  match m with
  | inl e => inl e
  | inr a => k a
  end.

(** [try { body } catch (e) { handler(e) }]. *)
Definition try_catch {A} (body : t A) (handler : Thrown -> t A) : t A :=
  match body with
  | inl e => handler e
  | inr a => inr a
  end.

(** [error && typeof error.message === 'string'], giving the message. *)
Definition string_message (error : Thrown) : option string :=
  match error with
  | ErrorObj m => Some m
  | Object m => m
  | Falsy => None
  end.

(** [err instanceof Error ? err.message : fallback]. *)
Definition message_or (fallback : string) (err : Thrown) : string :=
  match err with
  | ErrorObj m => m
  | _ => fallback
  end.

End Exn.

Notation "x <- m ;; k" := (Exn.bind m (fun x => k))
(at level 61, m at next level, right associativity).

(* ================================================================== *)
(** ** [services/geminiService.ts] *)

Module Service.

Import Exn.

(** *** Strings *)

(** [s.split(c)] for a one-character separator. *)
Fixpoint split (c : ascii) (s : string) : list string :=
  match s with
  | EmptyString => [EmptyString]
  | String a r =>
      if Ascii.eqb a c then EmptyString :: split c r
      else match split c r with
           | p :: ps => String a p :: ps
           | [] => [String a EmptyString]
           end
  end.

(** The characters that [.] does not match (those below 256). *)
Definition is_line_terminator (c : ascii) : bool :=
  Ascii.eqb c "010" || Ascii.eqb c "013".

(** [(.*?);] tried at one position: the shortest run of [.] that is
    followed by a semicolon. *)
Fixpoint lazy_until_semicolon (s : string) : option string :=
  match s with
  | EmptyString => None
  | String c r =>
      if Ascii.eqb c ";" then Some EmptyString
      else if is_line_terminator c then None
      else option_map (String c) (lazy_until_semicolon r)
  end.

(** [header.match(/:(.*?);/)]: the capture of the leftmost match. *)
Fixpoint match_mime (header : string) : option string :=
  match header with
  | EmptyString => None
  | String c r =>
      if Ascii.eqb c ":" then
        match lazy_until_semicolon r with
        | Some g => Some g
        | None => match_mime r
        end
      else match_mime r
  end.

Module DataUrlParts.
Record t := mk { base64Data : string; mimeType : string }.
End DataUrlParts.

Definition dataUrlToParts (dataUrl : string) : Exn.t DataUrlParts.t :=
  match split "," dataUrl with
  | [header; base64Data] =>
      match match_mime header with
      | Some mimeType =>
          if Js.truthy mimeType then ret (DataUrlParts.mk base64Data mimeType)
          else throw (ErrorObj "Could not extract MIME type from data URL")
      | None => throw (ErrorObj "Could not extract MIME type from data URL")
      end
  | _ => throw (ErrorObj "Invalid data URL format")
  end.

(** The template literal [`data:${mime};base64,${payload}`]. *)
Definition dataUrl (mime payload : string) : string :=
  "data:" ++ mime ++ ";base64," ++ payload.

(** *** Files and the request *)

(** A [File]: its [type], and what [FileReader.readAsDataURL] ends with. *)
Module File.
Record t := mk { type : string; readAsDataURL : Exn.t string }.
End File.

(** [result.split(',')[1]], [undefined] when there is no comma. *)
Definition fileToBase64 (file : File.t) : Exn.t (option string) :=
  result <- File.readAsDataURL file ;;
  ret (nth_error (split "," result) 1).

(** [image: File | string]. *)
Inductive Image :=
| ImageFile (file : File.t)
| ImageString (s : string).

Fixpoint startsWith (p s : string) : bool :=
  match p, s with
  | EmptyString, _ => true
  | String a p', String b s' => Ascii.eqb a b && startsWith p' s'
  | String _ _, EmptyString => false
  end.

(** *** The response of [generateContent] (all fields optional) *)

Module Blob.
Record t := mk { data : option string; mimeType : option string }.
End Blob.

Module Part.
Record t := mk { inlineData : option Blob.t; text : option string }.
End Part.

Module Content.
Record t := mk { parts : option (list Part.t) }.
End Content.

Module Candidate.
Record t := mk { content : option Content.t }.
End Candidate.

Module Response.
Record t := mk { candidates : option (list Candidate.t) }.
End Response.

(** A parsed JSON text. *)
#[local] Unset Elimination Schemes.
Inductive Json :=
| JNull
| JBool (b : bool)
| JNumber (n : Q)
| JString (s : string)
| JArray (items : list Json)
| JObject (fields : list (string * Json)).
#[local] Set Elimination Schemes.

(** What the function gets from outside: the fetch of a blob URL as a
    [File], the remote call (given the inline data, its media type and
    the prompt), and [JSON.parse]. *)
Record Platform := mkPlatform {
  fetchBlob : string -> Exn.t File.t;
  generateContent : option string -> string -> string -> Exn.t Response.t;
  JSON_parse : string -> Exn.t Json
}.

(** [v?.key]: [undefined] on [undefined] and [null]; no other value than
    an object has an own property [error] or [code]. *)
Definition opt_get (key : string) (v : option Json) : option Json :=
  match v with
  | Some (JObject fields) =>
      option_map snd (find (fun kv => String.eqb (fst kv) key) fields)
  | _ => None
  end.

(** [errorDetails?.error?.code === 429]. *)
Definition code_is_429 (errorDetails : Json) : bool :=
  match opt_get "code" (opt_get "error" (Some errorDetails)) with
  | Some (JNumber n) => Qeq_bool n (429 # 1)
  | _ => false
  end.

Definition quota_message : string :=
  "You've exceeded your API quota. Please check your plan and billing details.".
Definition generic_message : string :=
  "An error occurred while communicating with the AI. Please try again later.".

(** The [catch (error)] block around [generateContent]. *)
Definition on_generate_error (P : Platform) (error : Thrown) : Exn.t Response.t :=
  _ <- try_catch
         (match string_message error with
          | Some message =>
              errorDetails <- JSON_parse P message ;;
              if code_is_429 errorDetails then throw (ErrorObj quota_message)
              else ret tt
          | None => ret tt
          end)
         (fun e => ret tt) ;;
  throw (ErrorObj generic_message).

(** *** Reading the response *)

(** The three variables that the loop over the parts assigns. *)
Record Acc := mkAcc {
  newImageBase64 : option string;
  newText : string;
  newMimeType : option string
}.

(** One iteration of [for (const part of ...parts)]. *)
Definition scan_part (acc : Acc) (part : Part.t) : Acc :=
  match Part.inlineData part with
  | Some inline => mkAcc (Blob.data inline) (newText acc) (Blob.mimeType inline)
  | None =>
      if Js.truthy_opt (Part.text part)
      then mkAcc (newImageBase64 acc)
                 (newText acc ++ match Part.text part with Some t => t | None => "" end)
                 (newMimeType acc)
      else acc
  end.

(** [response.candidates && response.candidates.length > 0 &&
    response.candidates[0].content && response.candidates[0].content.parts]. *)
Definition response_parts (response : Response.t) : option (list Part.t) :=
  match Response.candidates response with
  | Some (first :: _) =>
      match Candidate.content first with
      | Some c => Content.parts c
      | None => None
      end
  | _ => None
  end.

Module EditResult.
Record t := mk { imageUrl : string; text : string }.
End EditResult.

(** [`${v}`] for a string that may be [undefined]. *)
Definition interpolate (v : option string) : string :=
  match v with Some s => s | None => "undefined" end.

Definition dquote : string := String (ascii_of_nat 34) EmptyString.

Definition no_candidates_message : string :=
  "No valid candidates returned from the API.".
Definition refused_message (newText : string) : string :=
  "The AI could not edit the image: " ++ dquote ++ newText ++ dquote.
Definition no_image_message : string :=
  "The AI did not return an image. Please try a different prompt.".

(** From the declaration of [newImageBase64] to the [return]. *)
Definition read_response (mimeType : string) (response : Response.t)
  : Exn.t EditResult.t :=
  match response_parts response with
  | Some parts =>
      let acc := fold_left scan_part parts (mkAcc None "" (Some mimeType)) in
      if negb (Js.truthy_opt (newImageBase64 acc)) then
        if Js.truthy (newText acc)
        then throw (ErrorObj (refused_message (newText acc)))
        else throw (ErrorObj no_image_message)
      else
        ret (EditResult.mk
               (dataUrl (interpolate (newMimeType acc))
                        (interpolate (newImageBase64 acc)))
               (newText acc))
  | None => throw (ErrorObj no_candidates_message)
  end.

(** The first part of the function: the inline data and the media type
    of the request. *)
Definition request_image (P : Platform) (image : Image)
  : Exn.t (option string * string) :=
  match image with
  | ImageString s =>
      if startsWith "blob:" s then
        file <- fetchBlob P s ;;
        base64Data <- fileToBase64 file ;;
        ret (base64Data, File.type file)
      else
        parts <- dataUrlToParts s ;;
        ret (Some (DataUrlParts.base64Data parts), DataUrlParts.mimeType parts)
  | ImageFile file =>
      base64Data <- fileToBase64 file ;;
      ret (base64Data, File.type file)
  end.

(** The variant of the file in which the remote call is wrapped in
    [try]/[catch]. *)
Definition editImageWithGemini_catching (P : Platform) (image : Image)
  (prompt : string) : Exn.t EditResult.t :=
  req <- request_image P image ;;
  let '(base64Data, mimeType) := req in
  response <- try_catch (generateContent P base64Data mimeType prompt)
                        (on_generate_error P) ;;
  read_response mimeType response.

(** [editImageWithGemini] as the editor imports it: a failure of the
    remote call is thrown on as it is. *)
Definition editImageWithGemini (P : Platform) (image : Image)
  (prompt : string) : Exn.t EditResult.t :=
  req <- request_image P image ;;
  let '(base64Data, mimeType) := req in
  response <- generateContent P base64Data mimeType prompt ;;
  read_response mimeType response.

(** *** What the theorems speak about *)

Fixpoint all_chars (f : ascii -> bool) (s : string) : bool :=
  match s with
  | EmptyString => true
  | String c r => f c && all_chars f r
  end.

Definition no_comma (s : string) : bool :=
  all_chars (fun c => negb (Ascii.eqb c ",")) s.

(** A media type that the data URL can carry: not empty, and free of
    commas, semicolons and line terminators. *)
Definition media_type_char (c : ascii) : bool :=
  negb (Ascii.eqb c "," || Ascii.eqb c ";" || is_line_terminator c).

Definition plain_media_type (m : string) : bool :=
  Js.truthy m && all_chars media_type_char m.

(** A response that consists of the given parts. *)
Definition response_of (parts : list Part.t) : Response.t :=
  Response.mk (Some [Candidate.mk (Some (Content.mk (Some parts)))]).

Definition is_inline (part : Part.t) : bool :=
  match Part.inlineData part with Some _ => true | None => false end.

(** The text of a part, the empty string when it has none. *)
Definition part_text (part : Part.t) : string :=
  match Part.text part with Some t => t | None => "" end.

(** The texts of the parts that carry no inline data, in part order. *)
Definition commentary (parts : list Part.t) : string :=
  fold_right String.append "" (map part_text (filter (fun p => negb (is_inline p)) parts)).

(** [blob] is the inline data of the last part that has some. *)
Definition last_inline (parts : list Part.t) (blob : Blob.t) : Prop :=
  exists before part after,
    parts = (before ++ part :: after)%list
    /\ Part.inlineData part = Some blob
    /\ forallb (fun q => negb (is_inline q)) after = true.

(** "The result is the last inline image, with the texts in order", for
    a response made of [parts] to a request of media type [mimeType]. *)
Definition returns_last_inline (mimeType : string) (parts : list Part.t) : Prop :=
  forall blob,
    last_inline parts blob ->
    read_response mimeType (response_of parts)
      = inr (EditResult.mk
               (dataUrl (interpolate (Blob.mimeType blob)) (interpolate (Blob.data blob)))
               (commentary parts)).

End Service.

(* ================================================================== *)
(** ** Base64 *)

(** The base64 text of a byte sequence (RFC 4648), as
  [FileReader.readAsDataURL], [canvas.toDataURL] and the remote service
  produce the payload of a data URL; the repository has no encoder of its
  own and never decodes a payload. *)
Module Base64.

Definition alphabet : string :=
  "ABCDEFGHIJKLMNOPQRSTUVWXYZabcdefghijklmnopqrstuvwxyz0123456789+/".

Definition digit (n : N) : ascii :=
  match String.get (N.to_nat n) alphabet with
  | Some c => c
  | None => "="%char
  end.

Fixpoint encode (bytes : list Byte.byte) : string :=
  match bytes with
  | [] => ""
  | [a] =>
      let x := Byte.to_N a in
      String (digit (x / 4)) (String (digit ((x mod 4) * 16)) "==")
  | [a; b] =>
      let x := Byte.to_N a in
      let y := Byte.to_N b in
      String (digit (x / 4))
        (String (digit ((x mod 4) * 16 + y / 16))
          (String (digit ((y mod 16) * 4)) "="))
  | a :: b :: c :: rest =>
      let x := Byte.to_N a in
      let y := Byte.to_N b in
      let z := Byte.to_N c in
      String (digit (x / 4))
        (String (digit ((x mod 4) * 16 + y / 16))
          (String (digit ((y mod 16) * 4 + z / 64))
            (String (digit (z mod 64)) (encode rest))))
  end%N.

End Base64.

(* ================================================================== *)
(** ** [normalizeImage] *)

Module Normalizer.

Import Exn.
Local Open Scope Q_scope.

(** What has been drawn on a canvas.  The arguments of [fillRect] and
    [drawImage] are JavaScript numbers: binary64 values. *)
Inductive Draw :=
| FillRect (style : string) (x y w h : spec_float)
| DrawImage (src : string) (x y w h : spec_float).

(** [canvas.width] and [canvas.height] are integer attributes. *)
Record Canvas := mkCanvas {
  width : Z;
  height : Z;
  fillStyle : string;
  drawn : list Draw
}.

(** [document.createElement('canvas')]. *)
Definition createCanvas : Canvas := mkCanvas 300%Z 150%Z "#000000" [].

Definition set_width (v : Z) (c : Canvas) : Canvas :=
  mkCanvas v (height c) (fillStyle c) (drawn c).
Definition set_height (v : Z) (c : Canvas) : Canvas :=
  mkCanvas (width c) v (fillStyle c) (drawn c).
Definition set_fillStyle (v : string) (c : Canvas) : Canvas :=
  mkCanvas (width c) (height c) v (drawn c).
Definition fillRect (x y w h : spec_float) (c : Canvas) : Canvas :=
  mkCanvas (width c) (height c) (fillStyle c)
    (drawn c ++ [FillRect (fillStyle c) x y w h]).
Definition drawImage (src : string) (x y w h : spec_float) (c : Canvas) : Canvas :=
  mkCanvas (width c) (height c) (fillStyle c)
    (drawn c ++ [DrawImage src x y w h]).

(** The arithmetic of the geometry.  The code computes in binary64, the
    arithmetic of JavaScript numbers, and that is what is drawn; the same
    expressions read in exact arithmetic give the geometry that the
    binary64 values round. *)
Record Number := mkNumber {
  num : Type;
  of_Z : Z -> num;
  sub : num -> num -> num;
  mul : num -> num -> num;
  div : num -> num -> num
}.

Definition exact : Number := mkNumber Q inject_Z Qminus Qmult Qdiv.

Definition binary64 : Number :=
  mkNumber spec_float (fun z => binary_normalize 53 1024 z 0 false)
    (SFsub 53 1024) (SFmul 53 1024) (SFdiv 53 1024).

Definition MAX_DIMENSION (N : Number) : num N := of_Z N 1024.

(** [newWidth] and [newHeight] for an image of [w] by [h] pixels. *)
Definition newSize (N : Number) (w h : Z) : num N * num N :=
  if (w >? h)%Z
  then (MAX_DIMENSION N, div N (mul N (of_Z N h) (MAX_DIMENSION N)) (of_Z N w))
  else (div N (mul N (of_Z N w) (MAX_DIMENSION N)) (of_Z N h), MAX_DIMENSION N).

Definition newWidth (N : Number) (w h : Z) : num N := fst (newSize N w h).
Definition newHeight (N : Number) (w h : Z) : num N := snd (newSize N w h).

Definition x (N : Number) (w h : Z) : num N :=
  div N (sub N (MAX_DIMENSION N) (newWidth N w h)) (of_Z N 2).
Definition y (N : Number) (w h : Z) : num N :=
  div N (sub N (MAX_DIMENSION N) (newHeight N w h)) (of_Z N 2).

(** The body of [img.onload] up to [toDataURL], for an image [src] of
    [w] by [h] pixels: every number is a binary64 value. *)
Definition render (src : string) (w h : Z) : Canvas :=
  let canvas := createCanvas in
  let canvas := set_width 1024%Z canvas in
  let canvas := set_height 1024%Z canvas in
  let canvas := set_fillStyle "black" canvas in
  let canvas :=
    fillRect (of_Z binary64 0) (of_Z binary64 0)
      (MAX_DIMENSION binary64) (MAX_DIMENSION binary64) canvas in
  drawImage src (x binary64 w h) (y binary64 w h)
    (newWidth binary64 w h) (newHeight binary64 w h) canvas.

(** The rational that a finite binary64 value denotes. *)
Definition value (f : spec_float) : option Q :=
  match f with
  | S754_zero _ => Some 0
  | S754_finite s m e =>
      let m := if s then Z.neg m else Z.pos m in
      Some (if (0 <=? e)%Z then inject_Z (m * 2 ^ e)%Z
            else m # Pos.pow 2 (Z.to_pos (- e)%Z))
  | _ => None
  end.

(** Two binary64 values denote rationals at most [eps] apart. *)
Definition near (eps : Q) (f : spec_float) (q : Q) : bool :=
  match value f with
  | Some v => Qle_bool (v - q) eps && Qle_bool (q - v) eps
  | None => false
  end.

(** A side of [size] drawn at [offset] lies on the canvas. *)
Definition on_canvas (offset size : spec_float) : bool :=
  match value offset, value size with
  | Some o, Some d => Qle_bool 0 o && Qle_bool 0 d && Qle_bool (o + d) 1024
  | _, _ => false
  end.

(** For an image of [w] by [h] pixels: the rectangle drawn in binary64 is
    the one of exact arithmetic up to [eps], and lies on the canvas. *)
Definition rounds_exact (eps : Q) (w h : Z) : bool :=
  near eps (newWidth binary64 w h) (newWidth exact w h)
  && near eps (newHeight binary64 w h) (newHeight exact w h)
  && near eps (x binary64 w h) (x exact w h)
  && near eps (y binary64 w h) (y exact w h)
  && on_canvas (x binary64 w h) (newWidth binary64 w h)
  && on_canvas (y binary64 w h) (newHeight binary64 w h).

(** The sizes from 1 by 1 to [n] by [n]. *)
Definition sizes (n : nat) : list (Z * Z) :=
  list_prod (map Z.of_nat (seq 1 n)) (map Z.of_nat (seq 1 n)).

(** The browser under [normalizeImage]: the decoding of an image source
    into its pixel size ([None]: [img.onerror]), whether a 2d context can
    be had, and the encoder behind [canvas.toDataURL(type)]. *)
Record Browser := mkBrowser {
  decode : string -> option (Z * Z);
  getContext2d : bool;
  toDataURL : Canvas -> string -> string
}.

Definition normalizeImage (B : Browser) (file : Service.File.t) : Exn.t string :=
  match Service.File.readAsDataURL file with
  | inl error => throw error
  | inr result =>
      if negb (Js.truthy result)
      then throw (ErrorObj "FileReader did not return a result")
      else
        match decode B result with
        | None => throw (ErrorObj "Image failed to load")
        | Some (w, h) =>
            if negb (getContext2d B)
            then throw (ErrorObj "Could not get canvas context")
            else ret (toDataURL B (render result w h) "image/png")
        end
  end.

End Normalizer.

(* ================================================================== *)
(** ** The editor component: state and handlers *)

Module Editor.

(** The six [useState] cells of [ImageEditor]. *)
Record State := mkState {
  history : list string;
  currentIndex : Z;
  prompt : string;
  isLoading : bool;
  error : option string;
  loadingMessage : string
}.

(** Initial values of the [useState] calls. *)
Definition init : State := mkState [] (-1) "" false None "".

Definition setHistory (h : list string) (s : State) : State :=
  mkState h (currentIndex s) (prompt s) (isLoading s) (error s) (loadingMessage s).
Definition setCurrentIndex (i : Z) (s : State) : State :=
  mkState (history s) i (prompt s) (isLoading s) (error s) (loadingMessage s).
Definition setPrompt (p : string) (s : State) : State :=
  mkState (history s) (currentIndex s) p (isLoading s) (error s) (loadingMessage s).
Definition setIsLoading (b : bool) (s : State) : State :=
  mkState (history s) (currentIndex s) (prompt s) b (error s) (loadingMessage s).
Definition setError (e : option string) (s : State) : State :=
  mkState (history s) (currentIndex s) (prompt s) (isLoading s) e (loadingMessage s).
Definition setLoadingMessage (m : string) (s : State) : State :=
  mkState (history s) (currentIndex s) (prompt s) (isLoading s) (error s) m.

(** [const currentImageUrl = history[currentIndex]]. *)
Definition currentImageUrl (s : State) : option string :=
  Js.index (history s) (currentIndex s).

(** *** [processImage] (the effect run for a new [imageFile]) *)

(** Up to the [await]: previous state cleared, loader shown. *)
Definition processImage_begin (s : State) : State :=
  setError None
    (setLoadingMessage "Preparing your image..."
      (setIsLoading true (setCurrentIndex (-1) (setHistory [] s)))).

(** After [normalizeImage(imageFile)] settled with [r]. *)
Definition processImage_resume (r : Exn.t string) (s : State) : State :=
  setIsLoading false
    match r with
    | inr normalizedImageUrl => setCurrentIndex 0 (setHistory [normalizedImageUrl] s)
    | inl err => setError (Some (Exn.message_or "Failed to process image." err)) s
    end.

(** The whole effect, nothing else happening meanwhile. *)
Definition processImage (r : Exn.t string) (s : State) : State :=
  processImage_resume r (processImage_begin s).

(** *** [handleEdit] *)

(** The values of [history] and [currentIndex] that the closure of one
    render holds; the continuation after the [await] reads these, not the
    state of the moment. *)
Record Closure := mkClosure {
  c_history : list string;
  c_currentIndex : Z
}.

Definition capture (s : State) : Closure :=
  mkClosure (history s) (currentIndex s).

(** The guard [!prompt.trim() || !currentImageUrl]. *)
Definition edit_rejected (s : State) : bool :=
  negb (Js.truthy (Js.trim (prompt s))) || negb (Js.truthy_opt (currentImageUrl s)).

(** Up to the [await]. *)
Definition handleEdit_begin (s : State) : State :=
  if edit_rejected s then setError (Some "Please enter an editing instruction.") s
  else setError None
         (setLoadingMessage "Photon is working its magic..." (setIsLoading true s)).

(** The [try] body after the [await] resolved with [imageUrl]. *)
Definition commit (cl : Closure) (imageUrl : string) (s : State) : State :=
  let newHistory := Js.slice0 (c_history cl) (c_currentIndex cl + 1) in
  setPrompt ""
    (setCurrentIndex (Js.length newHistory)
      (setHistory (newHistory ++ [imageUrl]) s)).

(** After [editImageWithGemini(currentImageUrl, prompt)] settled with [r]:
    the rest of [try], then [catch] and [finally]. *)
Definition handleEdit_resume (cl : Closure) (r : Exn.t Service.EditResult.t)
  (s : State) : State :=
  setIsLoading false
    match r with
    | inr result => commit cl (Service.EditResult.imageUrl result) s
    | inl err => setError (Some (Exn.message_or "An unknown error occurred." err)) s
    end.

(** The whole handler, nothing else happening while the call is in flight. *)
Definition handleEdit (r : Exn.t Service.EditResult.t) (s : State) : State :=
  if edit_rejected s then handleEdit_begin s
  else handleEdit_resume (capture s) r (handleEdit_begin s).

(** [handleEdit] with the call it makes, on a platform [P]: the call is
    reached only when the guard has passed, and [currentImageUrl] is a
    string then. *)
Definition handleEdit_on (P : Service.Platform) (s : State) : State :=
  handleEdit
    match currentImageUrl s with
    | Some url => Service.editImageWithGemini P (Service.ImageString url) (prompt s)
    | None => Exn.throw Exn.Falsy
    end
    s.

(** *** [handleUndo], [handleRedo] and the prompt's [onChange] *)

Definition handleUndo (s : State) : State :=
  if currentIndex s >? 0 then setCurrentIndex (currentIndex s - 1) s else s.

Definition handleRedo (s : State) : State :=
  if currentIndex s <? Js.length (history s) - 1
  then setCurrentIndex (currentIndex s + 1) s else s.

Definition onChange (value : string) (s : State) : State :=
  let s' := setPrompt value s in
  if Js.truthy_opt (error s) then setError None s' else s'.

(** *** Runs of the component, one event after the other *)

Inductive Event :=
| NewImage (r : Exn.t string)             (* a new [imageFile]; [normalizeImage] settles with [r] *)
| Type_ (value : string)                  (* the prompt's [onChange] *)
| Edit (r : Exn.t Service.EditResult.t)   (* [handleEdit]; the service call settles with [r] *)
| Undo
| Redo.

Definition step (s : State) (e : Event) : State :=
  match e with
  | NewImage r => processImage r s
  | Type_ v => onChange v s
  | Edit r => handleEdit r s
  | Undo => handleUndo s
  | Redo => handleRedo s
  end.

Definition run (es : list Event) (s : State) : State := fold_left step es s.

(** *** Properties of states and runs that the theorems speak about *)

(** The cursor is inside a non-empty sequence. *)
Definition in_bounds (s : State) : Prop :=
  history s <> [] -> 0 <= currentIndex s < Js.length (history s).

End Editor.

(* ================================================================== *)
(** ** Concrete platforms and responses used by the examples *)

Module Examples.

Import Exn Service.

Definition png : string := "image/png".

Definition image_part (data : option string) (mimeType : option string) : Part.t :=
  Part.mk (Some (Blob.mk data mimeType)) None.

Definition text_part (t : string) : Part.t := Part.mk None (Some t).

(** The JSON text [{"error":{"code":429}}] and its value. *)
Definition body429 : string :=
  "{" ++ dquote ++ "error" ++ dquote ++ ":{" ++ dquote ++ "code" ++ dquote ++ ":429}}".

Definition json429 : Json := JObject [("error", JObject [("code", JNumber (429 # 1))])].

Definition parse429 (text : string) : Exn.t Json :=
  if String.eqb text body429 then ret json429
  else throw (ErrorObj "SyntaxError").

(** A platform whose remote call returns [response]. *)
Definition answering (response : Response.t) : Platform :=
  mkPlatform (fun _ => throw Falsy) (fun _ _ _ => ret response) parse429.

(** A platform whose remote call fails with [error]. *)
Definition failing (error : Thrown) : Platform :=
  mkPlatform (fun _ => throw Falsy) (fun _ _ _ => throw error) parse429.

(** The current image of an editor, as a request. *)
Definition source : Image := ImageString "data:image/png;base64,AAAA".

End Examples.

(* ================================================================== *)
(** ** The controls of the editor *)

(** [components/ActionButton.tsx]: the [disabled] attribute of the button. *)
Module ActionButton.

(** The props that decide it: [isLoading], and [disabled] when the caller
    gives one (it is then among the rest [...props]). *)
Record Props := mk {
  isLoading : option bool;
  disabled : option bool
}.

(** The destructuring default [isLoading = false]. *)
Definition loading (p : Props) : bool :=
  match isLoading p with Some b => b | None => false end.

(** [<button disabled={isLoading || props.disabled} {...props}>]: the
    spread comes last, and a [disabled] among the props replaces the
    attribute written before it. *)
Definition disabled_attribute (p : Props) : bool :=
  match disabled p with
  | Some d => d
  | None => loading p
  end.

End ActionButton.

Module Controls.

Import Editor.

(** The four buttons as [ImageEditor] renders them. *)
Definition generate_button (s : State) : ActionButton.Props :=
  ActionButton.mk (Some (isLoading s)) (Some (edit_rejected s)).

Definition undo_button (s : State) : ActionButton.Props :=
  ActionButton.mk None (Some ((currentIndex s <=? 0) || isLoading s)).

Definition redo_button (s : State) : ActionButton.Props :=
  ActionButton.mk None
    (Some ((currentIndex s >=? Js.length (history s) - 1) || isLoading s)).

Definition download_button (s : State) : ActionButton.Props :=
  ActionButton.mk None (Some (negb (Js.truthy_opt (currentImageUrl s)) || isLoading s)).

(** A click reaches [onClick] unless the button is disabled. *)
Definition click (button : ActionButton.Props) (onClick : State -> State)
  (s : State) : State :=
  if ActionButton.disabled_attribute button then s else onClick s.

(** [handleKeyDown] of the prompt; [r] is what the service call settles
    with if an edit is made. *)
Definition handleKeyDown (key : string) (shiftKey : bool)
  (r : Exn.t Service.EditResult.t) (s : State) : State :=
  if String.eqb key "Enter" && negb shiftKey then
    if Js.truthy (Js.trim (prompt s)) && Js.truthy_opt (currentImageUrl s)
       && negb (isLoading s)
    then handleEdit r s
    else s
  else s.

(** *** [handleDownload] *)

Definition in_range (lo hi : nat) (c : ascii) : bool :=
  ((lo <=? nat_of_ascii c) && (nat_of_ascii c <=? hi))%nat.

(** The class [[a-z0-9.]] under the flag [i]. *)
Definition is_name_char (c : ascii) : bool :=
  in_range 97 122 c || in_range 65 90 c || in_range 48 57 c || Ascii.eqb c ".".

Fixpoint map_chars (f : ascii -> ascii) (s : string) : string :=
  match s with
  | EmptyString => EmptyString
  | String c r => String (f c) (map_chars f r)
  end.

(** [name.replace(/[^a-z0-9.]/gi, '_')]. *)
Definition replace_other (name : string) : string :=
  map_chars (fun c => if is_name_char c then c else "_"%char) name.

(** [toLowerCase] on one code unit below 256: the letters of ASCII and of
    Latin-1. *)
Definition lower (c : ascii) : ascii :=
  if in_range 65 90 c || in_range 192 214 c || in_range 216 222 c
  then ascii_of_nat (nat_of_ascii c + 32)
  else c.

Definition toLowerCase (s : string) : string := map_chars lower s.

Definition sanitizedName (name : string) : string :=
  toLowerCase (replace_other name).

(** [`${n}`] for an integer. *)
Definition decimal (n : Z) : string := NilZero.string_of_int (Z.to_int n).

(** The link that [handleDownload] clicks. *)
Record Link := mkLink {
  href : string;
  download : string
}.

(** [handleDownload] for a file named [name]: no link without a current
    image. *)
Definition handleDownload (name : string) (s : State) : option Link :=
  match currentImageUrl s with
  | Some url =>
      if Js.truthy url
      then Some (mkLink url
                   ("edited-v" ++ decimal (currentIndex s + 1) ++ "-" ++ sanitizedName name))
      else None
  | None => None
  end.

(** The characters a sanitized name is made of. *)
Definition is_safe_char (c : ascii) : bool :=
  in_range 97 122 c || in_range 48 57 c || Ascii.eqb c "." || Ascii.eqb c "_".

End Controls.

(* ================================================================== *)
(** ** [App.tsx], [components/ImageUploader.tsx], [components/Header.tsx] *)

Module App.

(** [const [imageFile, setImageFile] = useState<File | null>(null)]. *)
Definition State : Type := option Service.File.t.

Definition init : State := None.

Definition handleImageUpload (file : Service.File.t) : State := Some file.
Definition handleResetApp : State := None.

(** What [main] holds. *)
Inductive View :=
| Uploader
| EditorOf (imageFile : Service.File.t).

Definition view (s : State) : View :=
  match s with
  | None => Uploader
  | Some file => EditorOf file
  end.

(** [hasImage={!!imageFile}]: the header shows "Start Over". *)
Definition hasImage (s : State) : bool :=
  match s with Some _ => true | None => false end.

(** [handleFileChange]: [files && files[0]]. *)
Definition handleFileChange (files : option (list Service.File.t))
  : option Service.File.t :=
  match files with
  | Some (first :: _) => Some first
  | _ => None
  end.

(** [handleDrop]: [files && files.length > 0], then [files[0]]. *)
Definition handleDrop (files : option (list Service.File.t))
  : option Service.File.t :=
  match files with
  | Some files => if (0 <? Js.length files) then nth_error files 0 else None
  | None => None
  end.

Inductive Event :=
| FileChange (files : option (list Service.File.t))
| FileDrop (files : option (list Service.File.t))
| StartOver.

(** An event reaches a handler only while its element is rendered: the
    uploader while there is no image, the "Start Over" button while there
    is one. *)
Definition step (s : State) (e : Event) : State :=
  match e with
  | FileChange files =>
      match view s, handleFileChange files with
      | Uploader, Some file => handleImageUpload file
      | _, _ => s
      end
  | FileDrop files =>
      match view s, handleDrop files with
      | Uploader, Some file => handleImageUpload file
      | _, _ => s
      end
  | StartOver => if hasImage s then handleResetApp else s
  end.

Definition run (es : list Event) (s : State) : State := fold_left step es s.

End App.

(* ================================================================== *)
(** ** The page: [App] with the editor it mounts *)

Module Page.

(** What a continuation waits for: the normalisation started by the effect
    of an editor, or the service call of one edit, with the values of
    [history] and [currentIndex] that its closure holds. *)
Inductive Awaited :=
| Normalisation
| EditCall (cl : Editor.Closure).

(** A promise not yet settled.  Its continuation holds the state setters
    of the editor that started it: [owner] numbers that editor. *)
Record Pending := mkPending {
  owner : nat;
  awaited : Awaited
}.

(** [App] renders [<ImageEditor imageFile={imageFile} />] only while
    [imageFile] is set, so every image gets an editor of its own, with
    fresh [useState] cells; [mounted] counts the editors mounted so far
    and numbers the one on the page. *)
Record World := mkWorld {
  imageFile : App.State;
  mounted : nat;
  editor : option Editor.State;
  pending : list Pending
}.

Definition init : World := mkWorld App.init 0 None [].

Inductive Event :=
| AppEvent (e : App.Event)                     (* a file is chosen or dropped, "Start Over" *)
| Types (value : string)                       (* the prompt's [onChange] *)
| EditBegins                                   (* [handleEdit] up to its [await] *)
| Undoes
| Redoes
| NormalisationSettles (n : nat) (r : Exn.t string)
                                               (* the [n]-th pending promise, a normalisation, settles *)
| EditSettles (n : nat) (r : Exn.t Service.EditResult.t).
                                               (* the [n]-th pending promise, an edit's call, settles *)

(** A state update of the editor on the page. *)
Definition on_editor (f : Editor.State -> Editor.State) (w : World) : World :=
  match editor w with
  | Some st => mkWorld (imageFile w) (mounted w) (Some (f st)) (pending w)
  | None => w
  end.

(** The state updates of the continuation of editor [o]: they reach the
    state only if that editor is the one on the page; the setters of an
    editor that has been unmounted change nothing. *)
Definition deliver (o : nat) (f : Editor.State -> Editor.State) (w : World) : World :=
  if Nat.eqb o (mounted w) then on_editor f w else w.

Definition settled (n : nat) (w : World) : World :=
  mkWorld (imageFile w) (mounted w) (editor w)
    (firstn n (pending w) ++ skipn (S n) (pending w)).

Definition step (w : World) (e : Event) : World :=
  match e with
  | AppEvent a =>
      let imageFile' := App.step (imageFile w) a in
      match imageFile w, imageFile' with
      | None, Some _ =>
          (* the editor is mounted and its effect runs [processImage] *)
          mkWorld imageFile' (S (mounted w))
            (Some (Editor.processImage_begin Editor.init))
            (pending w ++ [mkPending (S (mounted w)) Normalisation])
      | Some _, None =>
          (* the editor is unmounted *)
          mkWorld imageFile' (mounted w) None (pending w)
      | _, _ => mkWorld imageFile' (mounted w) (editor w) (pending w)
      end
  | Types v => on_editor (Editor.onChange v) w
  | EditBegins =>
      match editor w with
      | Some st =>
          if Editor.edit_rejected st
          then on_editor Editor.handleEdit_begin w
          else mkWorld (imageFile w) (mounted w) (Some (Editor.handleEdit_begin st))
                 (pending w ++ [mkPending (mounted w) (EditCall (Editor.capture st))])
      | None => w
      end
  | Undoes => on_editor Editor.handleUndo w
  | Redoes => on_editor Editor.handleRedo w
  | NormalisationSettles n r =>
      match nth_error (pending w) n with
      | Some (mkPending o Normalisation) =>
          deliver o (Editor.processImage_resume r) (settled n w)
      | _ => w
      end
  | EditSettles n r =>
      match nth_error (pending w) n with
      | Some (mkPending o (EditCall cl)) =>
          deliver o (Editor.handleEdit_resume cl r) (settled n w)
      | _ => w
      end
  end.

Definition run (es : list Event) (w : World) : World := fold_left step es w.

(** No pending promise belongs to an editor that is yet to be mounted. *)
Definition owners_mounted (w : World) : Prop :=
  Forall (fun p => (owner p <= mounted w)%nat) (pending w).

(** The cursor of the editor on the page is inside the bounds, and so is
    the cursor that every pending edit has captured. *)
Definition page_in_bounds (w : World) : Prop :=
  (forall st, editor w = Some st -> Editor.in_bounds st)
  /\ Forall (fun p => match awaited p with
                      | EditCall cl =>
                          0 <= Editor.c_currentIndex cl
                            < Js.length (Editor.c_history cl)
                      | Normalisation => True
                      end) (pending w).

End Page.

(* ================================================================== *)
(** ** [sw.js]: the offline cache *)

Module Worker.

Record Request := mkRequest {
  method : string;
  url : string
}.

Record Response := mkResponse {
  status : Z;
  type : string;
  body : string
}.

(** [response.ok]: a status from 200 to 299. *)
Definition ok (r : Response) : bool := (200 <=? status r) && (status r <=? 299).

(** [cache.put] and [cache.addAll] refuse a partial response (status 206).
    Responses with a [Vary] header are outside the model. *)
Definition storable (r : Response) : bool := negb (status r =? 206).

(** A cache: its entries by request URL, oldest first. *)
Definition Cache : Type := list (string * Response).

(** The cache storage: the caches by name, in order of creation. *)
Definition CacheStorage : Type := list (string * Cache).

(** The network: the response to a GET of a URL, [None] when [fetch]
    rejects. *)
Definition Network : Type := string -> option Response.

Definition CACHE_NAME : string := "photon-pwa-v1".
Definition APP_SHELL_URLS : list string := ["/"; "/index.html"; "/manifest.json"].

(** *** The Cache API, as far as the worker uses it *)

(** [cache.match(request)]. *)
Fixpoint cache_match (cache : Cache) (u : string) : option Response :=
  match cache with
  | [] => None
  | (k, r) :: rest => if String.eqb k u then Some r else cache_match rest u
  end.

(** [caches.match(request)]: the first cache, in order of creation, that
    has a match. *)
Fixpoint caches_match (st : CacheStorage) (u : string) : option Response :=
  match st with
  | [] => None
  | (_, cache) :: rest =>
      match cache_match cache u with
      | Some r => Some r
      | None => caches_match rest u
      end
  end.

(** The cache of a name, if there is one. *)
Fixpoint caches_get (st : CacheStorage) (name : string) : option Cache :=
  match st with
  | [] => None
  | (k, cache) :: rest => if String.eqb k name then Some cache else caches_get rest name
  end.

(** [caches.keys()]. *)
Definition caches_keys (st : CacheStorage) : list string := map fst st.

(** [caches.open(name)]: the cache is created when it does not exist. *)
Definition caches_open (name : string) (st : CacheStorage) : CacheStorage :=
  match caches_get st name with
  | Some _ => st
  | None => (st ++ [(name, [])])%list
  end.

(** [caches.delete(name)]. *)
Definition caches_delete (name : string) (st : CacheStorage) : CacheStorage :=
  filter (fun kc => negb (String.eqb (fst kc) name)) st.

(** [cache.put(request, response)]: an entry for the same URL is replaced. *)
Definition cache_put (u : string) (r : Response) (cache : Cache) : Cache :=
  (filter (fun kr => negb (String.eqb (fst kr) u)) cache ++ [(u, r)])%list.

(** An operation on the cache of a name. *)
Fixpoint caches_update (name : string) (f : Cache -> Cache) (st : CacheStorage)
  : CacheStorage :=
  match st with
  | [] => []
  | (k, cache) :: rest =>
      if String.eqb k name then (k, f cache) :: rest
      else (k, cache) :: caches_update name f rest
  end.

(** [cache.addAll(urls)]: every URL is fetched; if a fetch fails or a
    response is not [ok] or is partial, nothing is stored. *)
Fixpoint fetch_all (net : Network) (urls : list string)
  : option (list (string * Response)) :=
  match urls with
  | [] => Some []
  | u :: rest =>
      match net u, fetch_all net rest with
      | Some r, Some rs => if ok r && storable r then Some ((u, r) :: rs) else None
      | _, _ => None
      end
  end.

Definition cache_addAll (net : Network) (urls : list string) (cache : Cache)
  : option Cache :=
  match fetch_all net urls with
  | Some entries => Some (fold_left (fun c kr => cache_put (fst kr) (snd kr) c) entries cache)
  | None => None
  end.

(** *** The three listeners *)

(** [install]: the storage afterwards, and whether [waitUntil]'s promise
    was fulfilled. *)
Definition on_install (net : Network) (st : CacheStorage) : CacheStorage * bool :=
  let st := caches_open CACHE_NAME st in
  match caches_get st CACHE_NAME with
  | Some cache =>
      match cache_addAll net APP_SHELL_URLS cache with
      | Some cache' => (caches_update CACHE_NAME (fun _ => cache') st, true)
      | None => (st, false)
      end
  | None => (st, false)
  end.

(** [activate]: every cache of another name is deleted. *)
Definition on_activate (st : CacheStorage) : CacheStorage :=
  fold_left
    (fun st cacheName =>
       if negb (String.eqb cacheName CACHE_NAME) then caches_delete cacheName st else st)
    (caches_keys st) st.

(** What the [fetch] listener does with the request. *)
Inductive Answer :=
| NotHandled                              (* no [respondWith]: the browser fetches *)
| Respond (response : option Response).   (* [None]: the promise gives [undefined] *)

(** [fetch]; the [cache.put], which is not awaited, has been done when the
    step ends. *)
Definition on_fetch (net : Network) (request : Request) (st : CacheStorage)
  : Answer * CacheStorage :=
  if negb (String.eqb (method request) "GET") then (NotHandled, st)
  else
    match caches_match st (url request) with
    | Some cachedResponse => (Respond (Some cachedResponse), st)
    | None =>
        match net (url request) with
        | Some networkResponse =>
            let st := caches_open CACHE_NAME st in
            let st :=
              if ok networkResponse || String.eqb (type networkResponse) "opaque"
              then
                if storable networkResponse
                then caches_update CACHE_NAME (cache_put (url request) networkResponse) st
                else st    (* [put] rejects, and nobody awaits it *)
              else st in
            (Respond (Some networkResponse), st)
        | None => (Respond None, st)
        end
    end.

(** The storage after a sequence of requests, each with the network of its
    moment. *)
Definition serve (requests : list (Network * Request)) (st : CacheStorage)
  : CacheStorage :=
  fold_left (fun st nr => snd (on_fetch (fst nr) (snd nr) st)) requests st.

(** The network is down. *)
Definition offline : Network := fun _ => None.

Definition get (u : string) : Request := mkRequest "GET" u.

End Worker.

(* ================================================================== *)
(** ** Counting in strings *)

Module Text.

(** How often [c] occurs in [s]. *)
Fixpoint count_char (c : ascii) (s : string) : nat :=
  match s with
  | EmptyString => 0%nat
  | String a r => ((if Ascii.eqb a c then 1 else 0) + count_char c r)%nat
  end.

(** [fields.join(c)]. *)
Definition join (c : ascii) (fields : list string) : string :=
  String.concat (String c EmptyString) fields.

End Text.

(** The image URLs that the events of a run bring in: the normalised
    images and the results of the service. *)
Module Provenance.

Definition brought_by (e : Editor.Event) : list string :=
  match e with
  | Editor.NewImage (inr normalizedImageUrl) => [normalizedImageUrl]
  | Editor.Edit (inr result) => [Service.EditResult.imageUrl result]
  | _ => []
  end.

Definition brought (es : list Editor.Event) : list string := flat_map brought_by es.

End Provenance.

(* ================================================================== *)
(** ** The edit history *)

Section History.

Import Editor.
Local Open Scope list_scope.

(** Inside the bounds, [slice(0, i + 1)] is the prefix of [i + 1] elements. *)
Lemma slice0_prefix {A} (l : list A) (i : Z) :
  0 <= i < Js.length l ->
  Js.slice0 l (i + 1) = firstn (S (Z.to_nat i)) l.
Proof.
  intros Hi. unfold Js.slice0, Js.length in *.
  destruct (i + 1 <? 0) eqn:E; [apply Z.ltb_lt in E; lia|].
  f_equal. lia.
Qed.

Lemma length_slice0_prefix {A} (l : list A) (i : Z) :
  0 <= i < Js.length l ->
  Js.length (Js.slice0 l (i + 1)) = i + 1.
Proof.
  intros Hi. rewrite slice0_prefix by assumption.
  unfold Js.length in *. rewrite length_firstn. lia.
Qed.

(** [history[currentIndex]] is defined exactly inside the bounds. *)
Lemma index_some_bounds {A} (l : list A) (i : Z) (a : A) :
  Js.index l i = Some a -> 0 <= i < Js.length l.
Proof.
  unfold Js.index, Js.length. destruct (i <? 0) eqn:E; [discriminate|].
  apply Z.ltb_ge in E. intros H.
  assert (Hn : nth_error l (Z.to_nat i) <> None) by congruence.
  apply nth_error_Some in Hn. lia.
Qed.

(** An edit that passes the guard starts from a cursor inside the bounds. *)
Lemma accepted_in_bounds (s : State) :
  edit_rejected s = false -> 0 <= currentIndex s < Js.length (history s).
Proof.
  unfold edit_rejected, currentImageUrl. intros H.
  apply orb_false_elim in H as [_ H]. apply negb_false_iff in H.
  destruct (Js.index (history s) (currentIndex s)) as [u|] eqn:E; [|discriminate].
  eapply index_some_bounds; eassumption.
Qed.

(** The record of what a successful edit does to the sequence and the
    cursor. *)
Lemma handleEdit_success (s : State) (result : Service.EditResult.t) :
  edit_rejected s = false ->
  history (handleEdit (inr result) s)
    = firstn (S (Z.to_nat (currentIndex s))) (history s)
        ++ [Service.EditResult.imageUrl result]
  /\ currentIndex (handleEdit (inr result) s) = currentIndex s + 1.
Proof.
  intros Hok. pose proof (accepted_in_bounds s Hok) as Hb.
  unfold handleEdit, handleEdit_begin. rewrite Hok. cbn.
  rewrite length_slice0_prefix, slice0_prefix by assumption. auto.
Qed.

(** The whole state after an accepted edit whose call resolved. *)
Lemma handleEdit_accepted (s : State) (result : Service.EditResult.t) :
  edit_rejected s = false ->
  handleEdit (inr result) s
    = mkState (firstn (S (Z.to_nat (currentIndex s))) (history s)
                 ++ [Service.EditResult.imageUrl result])
              (currentIndex s + 1) "" false None "Photon is working its magic...".
Proof.
  intros Hok. pose proof (accepted_in_bounds s Hok) as Hb.
  unfold handleEdit, handleEdit_begin. rewrite Hok.
  unfold handleEdit_resume, commit, capture. cbn.
  rewrite length_slice0_prefix, slice0_prefix by assumption. reflexivity.
Qed.

Lemma step_in_bounds (s : State) (e : Event) :
  in_bounds s -> in_bounds (step s e).
Proof.
  unfold in_bounds. intros Hs. destruct e as [r|v|r| |]; cbn [step].
  - destruct r; cbn; intros H; [congruence | lia].
  - unfold onChange. destruct (Js.truthy_opt (error s)); exact Hs.
  - destruct (edit_rejected s) eqn:Hrej.
    + unfold handleEdit, handleEdit_begin. rewrite Hrej. exact Hs.
    + destruct r as [err|result].
      * unfold handleEdit, handleEdit_begin. rewrite Hrej. exact Hs.
      * destruct (handleEdit_success s result Hrej) as [Hh Hc].
        rewrite Hh, Hc. intros _.
        pose proof (accepted_in_bounds s Hrej) as Hb.
        unfold Js.length in *. rewrite length_app, length_firstn.
        cbn [List.length]. lia.
  - unfold handleUndo. destruct (currentIndex s >? 0) eqn:E; [|exact Hs].
    cbn. intros H. specialize (Hs H). apply Z.gtb_lt in E. lia.
  - unfold handleRedo.
    destruct (currentIndex s <? Js.length (history s) - 1) eqn:E; [|exact Hs].
    cbn. intros H. specialize (Hs H). apply Z.ltb_lt in E. lia.
Qed.

Lemma run_in_bounds (es : list Event) :
  forall s, in_bounds s -> in_bounds (run es s).
Proof.
  induction es as [|e es IH]; intros s Hs; [exact Hs|].
  cbn. apply IH, step_in_bounds, Hs.
Qed.

(** A continuation that commits on a closure captured inside the bounds
    leaves the cursor inside the bounds, whatever state it finds. *)
Lemma handleEdit_resume_in_bounds (cl : Closure) (r : Exn.t Service.EditResult.t)
  (s : State) :
  0 <= c_currentIndex cl < Js.length (c_history cl) ->
  in_bounds s -> in_bounds (handleEdit_resume cl r s).
Proof.
  intros Hcl Hs. destruct r as [err|result]; [exact Hs|].
  unfold in_bounds, handleEdit_resume, commit. cbn. intros _.
  rewrite length_slice0_prefix, slice0_prefix by assumption.
  unfold Js.length in *. rewrite length_app, length_firstn. cbn [List.length]. lia.
Qed.

Lemma processImage_begin_in_bounds (s : State) : in_bounds (processImage_begin s).
Proof. unfold in_bounds. cbn. congruence. Qed.

Lemma processImage_resume_in_bounds (r : Exn.t string) (s : State) :
  in_bounds s -> in_bounds (processImage_resume r s).
Proof.
  intros Hs. destruct r as [err|url]; [exact Hs|]. unfold in_bounds. cbn. lia.
Qed.

End History.

(* ================================================================== *)
(** ** The page: editors, one per image, and the promises they leave *)

Section PageFacts.

Import Page.
Local Open Scope list_scope.

Lemma Forall_without {A} (P : A -> Prop) (n : nat) (l : list A) :
  Forall P l -> Forall P (firstn n l ++ skipn (S n) l).
Proof.
  intros H. revert n. induction H as [|a l Ha Hl IH]; intros n.
  - destruct n; constructor.
  - destruct n as [|n]; cbn; [exact Hl|]. constructor; [exact Ha | apply IH].
Qed.

Lemma editor_on_editor (f : Editor.State -> Editor.State) (w : World) :
  editor (on_editor f w) = option_map f (editor w).
Proof.
  unfold on_editor. destruct (editor w) eqn:E; cbn [editor option_map];
    [reflexivity | exact E].
Qed.

Lemma on_editor_keeps (f : Editor.State -> Editor.State) (w : World) :
  imageFile (on_editor f w) = imageFile w
  /\ mounted (on_editor f w) = mounted w
  /\ pending (on_editor f w) = pending w.
Proof. unfold on_editor. destruct (editor w); repeat split; reflexivity. Qed.

Lemma deliver_keeps (o : nat) (f : Editor.State -> Editor.State) (w : World) :
  imageFile (deliver o f w) = imageFile w
  /\ mounted (deliver o f w) = mounted w
  /\ pending (deliver o f w) = pending w.
Proof.
  unfold deliver. destruct (Nat.eqb o (mounted w)); [apply on_editor_keeps|].
  repeat split; reflexivity.
Qed.

(** The setters of another editor than the one on the page change nothing. *)
Lemma deliver_stale (o : nat) (f : Editor.State -> Editor.State) (w : World) :
  o <> mounted w -> deliver o f w = w.
Proof.
  intros H. unfold deliver. apply Nat.eqb_neq in H. rewrite H. reflexivity.
Qed.

(** Nor do any setters while no editor is on the page. *)
Lemma deliver_unmounted (o : nat) (f : Editor.State -> Editor.State) (w : World) :
  editor w = None -> deliver o f w = w.
Proof.
  intros H. unfold deliver, on_editor. rewrite H.
  destruct (Nat.eqb o (mounted w)); reflexivity.
Qed.

(** The count of editors never decreases. *)
Lemma step_mounted_mono (w : World) (e : Event) :
  (mounted w <= mounted (step w e))%nat.
Proof.
  destruct e as [a|v| | | |n r|n r]; cbn [step].
  - destruct (imageFile w), (App.step _ a); cbn [mounted]; lia.
  - rewrite (proj1 (proj2 (on_editor_keeps _ w))). lia.
  - destruct (editor w) as [st|] eqn:E; [|lia].
    destruct (Editor.edit_rejected st); [|cbn [mounted]; lia].
    rewrite (proj1 (proj2 (on_editor_keeps _ w))). lia.
  - rewrite (proj1 (proj2 (on_editor_keeps _ w))). lia.
  - rewrite (proj1 (proj2 (on_editor_keeps _ w))). lia.
  - destruct (nth_error (pending w) n) as [[o [|cl]]|]; try lia.
    rewrite (proj1 (proj2 (deliver_keeps _ _ _))). cbn [settled mounted]. lia.
  - destruct (nth_error (pending w) n) as [[o [|cl]]|]; try lia.
    rewrite (proj1 (proj2 (deliver_keeps _ _ _))). cbn [settled mounted]. lia.
Qed.

Lemma run_mounted_mono (es : list Event) :
  forall w, (mounted w <= mounted (run es w))%nat.
Proof.
  induction es as [|e es IH]; intros w; [cbn; lia|].
  cbn. pose proof (step_mounted_mono w e). pose proof (IH (step w e)).
  unfold run in *. lia.
Qed.

(** Every pending promise belongs to an editor that has been mounted. *)
Lemma step_owners_mounted (w : World) (e : Event) :
  owners_mounted w -> owners_mounted (step w e).
Proof.
  unfold owners_mounted. intros H.
  destruct e as [a|v| | | |n r|n r]; cbn [step].
  - destruct (imageFile w), (App.step _ a); cbn [mounted pending]; try exact H.
    apply Forall_app. split.
    + eapply Forall_impl; [|exact H]. cbn. intros p Hp. lia.
    + constructor; [cbn; lia | constructor].
  - destruct (on_editor_keeps (Editor.onChange v) w) as [_ [-> ->]]. exact H.
  - destruct (editor w) as [st|] eqn:E; [|exact H].
    destruct (Editor.edit_rejected st).
    + destruct (on_editor_keeps Editor.handleEdit_begin w) as [_ [-> ->]]. exact H.
    + cbn [mounted pending]. apply Forall_app. split; [exact H|].
      constructor; [cbn; lia | constructor].
  - destruct (on_editor_keeps Editor.handleUndo w) as [_ [-> ->]]. exact H.
  - destruct (on_editor_keeps Editor.handleRedo w) as [_ [-> ->]]. exact H.
  - destruct (nth_error (pending w) n) as [[o [|cl]]|]; try exact H.
    destruct (deliver_keeps o (Editor.processImage_resume r) (settled n w))
      as [_ [-> ->]].
    cbn [settled mounted pending]. apply Forall_without, H.
  - destruct (nth_error (pending w) n) as [[o [|cl]]|]; try exact H.
    destruct (deliver_keeps o (Editor.handleEdit_resume cl r) (settled n w))
      as [_ [-> ->]].
    cbn [settled mounted pending]. apply Forall_without, H.
Qed.

Lemma run_owners_mounted (es : list Event) :
  forall w, owners_mounted w -> owners_mounted (run es w).
Proof.
  induction es as [|e es IH]; intros w Hw; [exact Hw|].
  cbn. apply IH, step_owners_mounted, Hw.
Qed.

(** The settlement of a promise whose editor is no longer the one on the
    page leaves the editor on the page as it is. *)
Lemma stale_settlement (w : World) (p : Pending) (n : nat)
  (r : Exn.t Service.EditResult.t) (rn : Exn.t string) :
  nth_error (pending w) n = Some p ->
  owner p <> mounted w \/ editor w = None ->
  editor (step w (EditSettles n r)) = editor w
  /\ editor (step w (NormalisationSettles n rn)) = editor w.
Proof.
  intros Hn Hstale. cbn [step]. rewrite Hn. destruct p as [o [|cl]]; cbn [owner] in *.
  - split; [reflexivity|].
    destruct Hstale as [H|H].
    + rewrite deliver_stale by (cbn [settled mounted]; exact H). reflexivity.
    + rewrite deliver_unmounted by (cbn [settled editor]; exact H). reflexivity.
  - split; [|reflexivity].
    destruct Hstale as [H|H].
    + rewrite deliver_stale by (cbn [settled mounted]; exact H). reflexivity.
    + rewrite deliver_unmounted by (cbn [settled editor]; exact H). reflexivity.
Qed.

(** The count of editors changes only when a file is taken while the
    uploader is shown; the editor mounted then starts from the initial
    state, with the effect's [processImage] up to its [await]. *)
Lemma mounted_changes_on_upload (w : World) (e : Event) :
  mounted (step w e) <> mounted w ->
  imageFile w = None
  /\ imageFile (step w e) <> None
  /\ mounted (step w e) = S (mounted w)
  /\ editor (step w e) = Some (Editor.processImage_begin Editor.init).
Proof.
  destruct e as [a|v| | | |n r|n r]; cbn [step].
  - destruct (imageFile w) as [f|] eqn:Ef, (App.step _ a) as [g|] eqn:Eg;
      cbn [mounted imageFile editor]; intros H; try (now contradiction H).
    repeat split. discriminate.
  - rewrite (proj1 (proj2 (on_editor_keeps _ w))). intros H. now contradiction H.
  - destruct (editor w) as [st|] eqn:E; [|intros H; now contradiction H].
    destruct (Editor.edit_rejected st); [|cbn [mounted]; intros H; now contradiction H].
    rewrite (proj1 (proj2 (on_editor_keeps _ w))). intros H. now contradiction H.
  - rewrite (proj1 (proj2 (on_editor_keeps _ w))). intros H. now contradiction H.
  - rewrite (proj1 (proj2 (on_editor_keeps _ w))). intros H. now contradiction H.
  - destruct (nth_error (pending w) n) as [[o [|cl]]|];
      try (intros H; now contradiction H).
    rewrite (proj1 (proj2 (deliver_keeps _ _ _))). cbn [settled mounted].
    intros H. now contradiction H.
  - destruct (nth_error (pending w) n) as [[o [|cl]]|];
      try (intros H; now contradiction H).
    rewrite (proj1 (proj2 (deliver_keeps _ _ _))). cbn [settled mounted].
    intros H. now contradiction H.
Qed.

(** Every file taken while the uploader is shown mounts an editor: the
    count grows by one, the editor starts from the initial state, and its
    normalisation is pending. *)
Lemma upload_mounts (w : World) (e : Event) :
  imageFile w = None -> imageFile (step w e) <> None ->
  mounted (step w e) = S (mounted w)
  /\ editor (step w e) = Some (Editor.processImage_begin Editor.init)
  /\ pending (step w e) = pending w ++ [mkPending (S (mounted w)) Normalisation].
Proof.
  intros Hnone. destruct e as [a|v| | | |n r|n r]; cbn [step].
  - rewrite Hnone. destruct (App.step None a) as [g|] eqn:Eg;
      cbn [mounted imageFile editor pending]; intros H; [|now contradiction H].
    repeat split.
  - rewrite (proj1 (on_editor_keeps _ w)). intros H. now contradiction H.
  - destruct (editor w) as [st|] eqn:E; [|intros H; now contradiction H].
    destruct (Editor.edit_rejected st);
      [|cbn [imageFile]; intros H; now contradiction H].
    rewrite (proj1 (on_editor_keeps _ w)). intros H. now contradiction H.
  - rewrite (proj1 (on_editor_keeps _ w)). intros H. now contradiction H.
  - rewrite (proj1 (on_editor_keeps _ w)). intros H. now contradiction H.
  - destruct (nth_error (pending w) n) as [[o [|cl]]|];
      try (intros H; now contradiction H).
    rewrite (proj1 (deliver_keeps _ _ _)). cbn [settled imageFile].
    intros H. now contradiction H.
  - destruct (nth_error (pending w) n) as [[o [|cl]]|];
      try (intros H; now contradiction H).
    rewrite (proj1 (deliver_keeps _ _ _)). cbn [settled imageFile].
    intros H. now contradiction H.
Qed.

Lemma on_editor_in_bounds (f : Editor.State -> Editor.State) (w : World) :
  (forall st, Editor.in_bounds st -> Editor.in_bounds (f st)) ->
  page_in_bounds w -> page_in_bounds (on_editor f w).
Proof.
  intros Hf [He Hp]. unfold on_editor.
  destruct (editor w) as [st|] eqn:E; [|split; [rewrite E; exact He | exact Hp]].
  split; [|exact Hp]. cbn [editor]. intros st' [= <-]. apply Hf, He. reflexivity.
Qed.

Lemma deliver_in_bounds (o : nat) (f : Editor.State -> Editor.State) (w : World) :
  (forall st, Editor.in_bounds st -> Editor.in_bounds (f st)) ->
  page_in_bounds w -> page_in_bounds (deliver o f w).
Proof.
  intros Hf Hw. unfold deliver.
  destruct (Nat.eqb o (mounted w)); [apply on_editor_in_bounds; assumption | exact Hw].
Qed.

(** The cursor stays inside the bounds on the page too, also when edits
    overlap. *)
Lemma step_page_in_bounds (w : World) (e : Event) :
  page_in_bounds w -> page_in_bounds (step w e).
Proof.
  intros Hw. pose proof Hw as [He Hp].
  destruct e as [a|v| | | |n r|n r]; cbn [step].
  - destruct (imageFile w), (App.step _ a); try (split; [exact He | exact Hp]).
    + split; [discriminate | exact Hp].
    + split; cbn [editor pending].
      * intros st [= <-]. apply processImage_begin_in_bounds.
      * apply Forall_app. split; [exact Hp | constructor; [exact I | constructor]].
  - apply on_editor_in_bounds; [|exact Hw].
    intros st. exact (step_in_bounds st (Editor.Type_ v)).
  - destruct (editor w) as [st|] eqn:E; [|exact Hw].
    assert (Hb : Editor.in_bounds (Editor.handleEdit_begin st)).
    { unfold Editor.handleEdit_begin.
      destruct (Editor.edit_rejected st); apply (He st eq_refl). }
    destruct (Editor.edit_rejected st) eqn:Hrej.
    + unfold on_editor. rewrite E. split; [|exact Hp].
      cbn [editor]. intros st' [= <-]. exact Hb.
    + split; cbn [editor pending].
      * intros st' [= <-]. exact Hb.
      * apply Forall_app. split; [exact Hp|].
        constructor; [|constructor]. cbn [awaited].
        exact (accepted_in_bounds st Hrej).
  - apply on_editor_in_bounds; [|exact Hw].
    intros st. exact (step_in_bounds st Editor.Undo).
  - apply on_editor_in_bounds; [|exact Hw].
    intros st. exact (step_in_bounds st Editor.Redo).
  - destruct (nth_error (pending w) n) as [[o [|cl]]|] eqn:En; try exact Hw.
    apply deliver_in_bounds.
    + intros st. apply processImage_resume_in_bounds.
    + split; [exact He | cbn [settled pending]; apply Forall_without, Hp].
  - destruct (nth_error (pending w) n) as [[o [|cl]]|] eqn:En; try exact Hw.
    apply deliver_in_bounds.
    + intros st. apply handleEdit_resume_in_bounds.
      apply nth_error_In in En.
      exact (proj1 (Forall_forall _ _) Hp _ En).
    + split; [exact He | cbn [settled pending]; apply Forall_without, Hp].
Qed.

Lemma run_page_in_bounds (es : list Event) :
  forall w, page_in_bounds w -> page_in_bounds (run es w).
Proof.
  induction es as [|e es IH]; intros w Hw; [exact Hw|].
  cbn. apply IH, step_page_in_bounds, Hw.
Qed.

(** Two edits that overlap (the "Generate" button is not disabled while
    the first call is in flight) both commit on the sequence captured at
    their click: the result of the first is replaced by the second. *)
Lemma overlapping_edits_commit_on_their_captures (f : Service.File.t) :
  let ok u := @inr Exn.Thrown _ (Service.EditResult.mk u "") in
  let w := run [AppEvent (App.FileChange (Some [f]));
                NormalisationSettles 0 (inr "I0"); Types "make it blue";
                EditBegins; EditBegins;
                EditSettles 0 (ok "E1"); EditSettles 0 (ok "E2")] init in
  option_map Editor.history (editor w) = Some ["I0"; "E2"]
  /\ option_map Editor.currentIndex (editor w) = Some 1
  /\ pending w = [].
Proof. cbn zeta. repeat split; reflexivity. Qed.

End PageFacts.

Section HistoryClaims.

Import Editor.
Local Open Scope list_scope.

(** The scenario of the history controller through the handlers of the
    component: each edit needs a prompt that is not blank and a current
    image. *)
Lemma edit_undo_edit_run (I0 I1 I2 I3 p : string) (t1 t2 t3 : string) :
  Js.truthy I0 = true -> Js.truthy I1 = true -> Js.truthy (Js.trim p) = true ->
  let ok u t := @inr Exn.Thrown _ (Service.EditResult.mk u t) in
  let final := run [NewImage (inr I0); Type_ p; Edit (ok I1 t1); Type_ p;
                    Edit (ok I2 t2); Undo; Type_ p; Edit (ok I3 t3)] init in
  history final = [I0; I1; I3] /\ currentIndex final = 2.
Proof.
  intros H0 H1 Hp. cbn zeta. unfold run. cbn [fold_left step].
  assert (Hacc : forall h i u l e m,
             Js.index h i = Some u -> Js.truthy u = true ->
             edit_rejected (mkState h i p l e m) = false).
  { intros h i u l e m Hu Ht. unfold edit_rejected, currentImageUrl.
    cbn [prompt history currentIndex]. rewrite Hp, Hu. cbn. rewrite Ht. reflexivity. }
  set (msg := "Photon is working its magic...").
  assert (E1 : handleEdit (inr (Service.EditResult.mk I1 t1))
                 (onChange p (processImage (inr I0) init))
               = mkState [I0; I1] 1 "" false None msg).
  { change (onChange p (processImage (inr I0) init))
      with (mkState [I0] 0 p false None "Preparing your image...").
    rewrite handleEdit_accepted by (apply (Hacc [I0] 0 I0); [reflexivity | exact H0]).
    reflexivity. }
  rewrite E1.
  assert (E2 : handleEdit (inr (Service.EditResult.mk I2 t2))
                 (onChange p (mkState [I0; I1] 1 "" false None msg))
               = mkState [I0; I1; I2] 2 "" false None msg).
  { change (onChange p (mkState [I0; I1] 1 "" false None msg))
      with (mkState [I0; I1] 1 p false None msg).
    rewrite handleEdit_accepted by (apply (Hacc [I0; I1] 1 I1); [reflexivity | exact H1]).
    reflexivity. }
  rewrite E2.
  change (onChange p (handleUndo (mkState [I0; I1; I2] 2 "" false None msg)))
    with (mkState [I0; I1; I2] 1 p false None msg).
  rewrite handleEdit_accepted by (apply (Hacc [I0; I1; I2] 1 I1); [reflexivity | exact H1]).
  split; reflexivity.
Qed.

(** C1.  History controller.  Starting from reset(I0), after commit(I1),
    commit(I2), undo(), commit(I3) the sequence is [I0, I1, I3] and the
    cursor is 2: the run of the component in which the image is normalised
    to [I0] and each edit is typed, submitted and answered before the next
    event.  In general an edit that is accepted with the cursor at [i] and
    answered with [newImage] keeps the elements [0..i], replaces everything
    after them by the one new element and sets the cursor to [i + 1]; an
    edit is accepted only on a non-empty sequence with the cursor inside
    it. *)
Theorem commit_replaces_redo_branch
  (I0 I1 I2 I3 p t1 t2 t3 : string) (s : State) (result : Service.EditResult.t)
  (H0 : Js.truthy I0 = true) (H1 : Js.truthy I1 = true)
  (Hp : Js.truthy (Js.trim p) = true)
  (Hok : edit_rejected s = false) :
  let ok u t := @inr Exn.Thrown _ (Service.EditResult.mk u t) in
  let final := run [NewImage (inr I0); Type_ p; Edit (ok I1 t1); Type_ p;
                    Edit (ok I2 t2); Undo; Type_ p; Edit (ok I3 t3)] init in
  (history final = [I0; I1; I3] /\ currentIndex final = 2)
  /\ (let i := currentIndex s in
      let newImage := Service.EditResult.imageUrl result in
      let s' := handleEdit (inr result) s in
      0 <= i < Js.length (history s)
      /\ history s' = firstn (Z.to_nat (i + 1)) (history s) ++ [newImage]
      /\ skipn (Z.to_nat (i + 1)) (history s') = [newImage]
      /\ Js.length (history s') = i + 2
      /\ currentIndex s' = i + 1).
Proof.
  split; [exact (edit_undo_edit_run I0 I1 I2 I3 p t1 t2 t3 H0 H1 Hp)|].
  cbn zeta. pose proof (accepted_in_bounds s Hok) as Hi.
  destruct (handleEdit_success s result Hok) as [Hh Hc].
  rewrite Hh, Hc.
  replace (Z.to_nat (currentIndex s + 1)) with (S (Z.to_nat (currentIndex s))) by lia.
  assert (Hlen : List.length (firstn (S (Z.to_nat (currentIndex s))) (history s))
                 = S (Z.to_nat (currentIndex s))).
  { rewrite length_firstn. unfold Js.length in Hi. lia. }
  split; [exact Hi|]. split; [reflexivity|]. split; [|split; [|reflexivity]].
  - rewrite skipn_app, Hlen, Nat.sub_diag, skipn_all2 by lia. reflexivity.
  - unfold Js.length. rewrite length_app, Hlen. cbn [List.length]. lia.
Qed.

Lemma commit_replaces_redo_branch_witness :
  let s := mkState ["a"; "b"; "c"] 0 "make it blue" false None "" in
  let ok u := @inr Exn.Thrown _ (Service.EditResult.mk u "") in
  edit_rejected s = false
  /\ history (run [NewImage (inr "I0"); Type_ "p"; Edit (ok "I1"); Type_ "p";
                   Edit (ok "I2"); Undo; Type_ "p"; Edit (ok "I3")] init)
       = ["I0"; "I1"; "I3"]
  /\ history (handleEdit (ok "d") s) = ["a"; "d"]
  /\ currentIndex (handleEdit (ok "d") s) = 1.
Proof.
  cbn zeta.
  pose proof (commit_replaces_redo_branch "I0" "I1" "I2" "I3" "p" "" "" ""
                (mkState ["a"; "b"; "c"] 0 "make it blue" false None "")
                (Service.EditResult.mk "d" "") eq_refl eq_refl eq_refl eq_refl)
    as [[Hrun _] [_ [Hh [_ [_ Hc]]]]].
  split; [reflexivity|]. split; [exact Hrun|]. split; [exact Hh | exact Hc].
Defined.

(** C2.  After every sequence of events (new image, typing, edit, undo,
    redo) the cursor of a non-empty history satisfies
    [0 <= cursor < length]; undo at cursor 0 and redo at the last index
    change nothing in the state. *)
Theorem cursor_stays_in_bounds (es : list Event) (s : State) :
  (history (run es init) <> [] ->
     0 <= currentIndex (run es init) < Js.length (history (run es init)))
  /\ (currentIndex s = 0 -> handleUndo s = s)
  /\ (currentIndex s = Js.length (history s) - 1 -> handleRedo s = s).
Proof.
  assert (Hinit : in_bounds init) by (unfold in_bounds; cbn; congruence).
  split; [|split].
  - apply (run_in_bounds es init Hinit).
  - intros H. unfold handleUndo. rewrite H. reflexivity.
  - intros H. unfold handleRedo. rewrite H, Z.ltb_irrefl. reflexivity.
Qed.

Lemma cursor_stays_in_bounds_witness :
  let es := [NewImage (inr "data:image/png;base64,AAAA")] in
  let s := run es init in
  history s <> [] /\ currentIndex s = 0
  /\ currentIndex s = Js.length (history s) - 1
  /\ 0 <= currentIndex s < Js.length (history s)
  /\ handleUndo s = s /\ handleRedo s = s.
Proof.
  cbn zeta.
  destruct (cursor_stays_in_bounds
              [NewImage (inr "data:image/png;base64,AAAA")]
              (run [NewImage (inr "data:image/png;base64,AAAA")] init))
    as [Hb [Hu Hr]].
  assert (Hne : history (run [NewImage (inr "data:image/png;base64,AAAA")] init) <> [])
    by discriminate.
  split; [exact Hne|]. split; [reflexivity|]. split; [reflexivity|].
  split; [exact (Hb Hne)|].
  split; [exact (Hu eq_refl) | exact (Hr eq_refl)].
Defined.

(** C9.  An edit that fails leaves the history sequence and the cursor as
    they were: whether the call is rejected with any thrown value [err],
    or the service on any platform [P] throws (data URL, remote call or
    reading of the response), or the request is refused before the call;
    this also holds for the continuation alone, whatever state [s'] it
    finds and whatever closure [cl] it holds.  A normalisation that fails
    in a fresh editor leaves the empty history and the cursor [-1]. *)
Theorem failed_edit_keeps_history
  (s s' : State) (cl : Closure) (err : Exn.Thrown) (P : Service.Platform) :
  (history (handleEdit (inl err) s) = history s
   /\ currentIndex (handleEdit (inl err) s) = currentIndex s)
  /\ match currentImageUrl s with
     | Some url =>
         match Service.editImageWithGemini P (Service.ImageString url) (prompt s) with
         | inl _ => history (handleEdit_on P s) = history s
                    /\ currentIndex (handleEdit_on P s) = currentIndex s
         | inr _ => True
         end
     | None => history (handleEdit_on P s) = history s
               /\ currentIndex (handleEdit_on P s) = currentIndex s
     end
  /\ (history (handleEdit_begin s) = history s
      /\ currentIndex (handleEdit_begin s) = currentIndex s)
  /\ (history (handleEdit_resume cl (inl err) s') = history s'
      /\ currentIndex (handleEdit_resume cl (inl err) s') = currentIndex s')
  /\ (history (processImage (inl err) init) = history init
      /\ currentIndex (processImage (inl err) init) = currentIndex init).
Proof.
  assert (H : forall e, history (handleEdit (inl e) s) = history s
                        /\ currentIndex (handleEdit (inl e) s) = currentIndex s).
  { intros e. unfold handleEdit, handleEdit_begin.
    destruct (edit_rejected s); split; reflexivity. }
  split; [apply H|]. split.
  { unfold handleEdit_on. destruct (currentImageUrl s) as [url|]; [|apply H].
    destruct (Service.editImageWithGemini P (Service.ImageString url) (prompt s));
      [apply H | exact I]. }
  unfold handleEdit_begin. destruct (edit_rejected s); repeat split; reflexivity.
Qed.

(** Whatever the state, the effect has cleared the history before
    [normalizeImage] is awaited. *)
Lemma failed_normalization_clears_history (s : State) (err : Exn.Thrown) :
  history (processImage (inl err) s) = [] /\ currentIndex (processImage (inl err) s) = -1.
Proof. split; reflexivity. Qed.

(** C10.  The result of an edit that was in flight over a reset is
    dropped: it is never committed into the fresh history.  A new image
    can only be taken after "Start Over", which unmounts the editor, and
    is given an editor of its own.  In every run of the page, a promise [p]
    that is pending when a later editor has been mounted, or while no
    editor is on the page, settles without any change to the editor on the
    page, whatever it settles with.  The count of mounted editors is the
    generation: every file taken while the uploader is shown adds one to
    it and mounts an editor that starts from the initial state, and
    nothing else changes it. *)
Theorem stale_edit_result_is_dropped
  (before after between : list Page.Event) (p : Page.Pending) (n : nat)
  (r : Exn.t Service.EditResult.t) (rn : Exn.t string) (e : Page.Event) :
  let w := Page.run before Page.init in
  let w' := Page.run after w in
  let v := Page.run between w in
  (In p (Page.pending w) ->
   (Page.mounted w < Page.mounted w')%nat \/ Page.editor w' = None ->
   nth_error (Page.pending w') n = Some p ->
   Page.editor (Page.step w' (Page.EditSettles n r)) = Page.editor w'
   /\ Page.editor (Page.step w' (Page.NormalisationSettles n rn))
      = Page.editor w')
  /\ (Page.imageFile v = None -> Page.imageFile (Page.step v e) <> None ->
      Page.mounted (Page.step v e) = S (Page.mounted v)
      /\ Page.editor (Page.step v e) = Some (processImage_begin init))
  /\ (Page.mounted (Page.step v e) <> Page.mounted v ->
      Page.imageFile v = None
      /\ Page.imageFile (Page.step v e) <> None
      /\ Page.mounted (Page.step v e) = S (Page.mounted v)
      /\ Page.editor (Page.step v e) = Some (processImage_begin init)).
Proof.
  cbn zeta. split; [|split; [|apply mounted_changes_on_upload]].
  - intros Hin Hlater Hn. apply (stale_settlement _ p); [exact Hn|].
    destruct Hlater as [Hlt|Hnone]; [left | right; exact Hnone].
    assert (Hown : Page.owners_mounted (Page.run before Page.init)).
    { apply run_owners_mounted. constructor. }
    pose proof (proj1 (Forall_forall _ _) Hown p Hin) as Hle. cbn in Hle. lia.
  - intros Hnone Hsome.
    destruct (upload_mounts _ e Hnone Hsome) as [Hm [He _]]. split; assumption.
Qed.

Lemma stale_edit_result_is_dropped_witness :
  let f := Service.File.mk "image/png" (inr "data:image/png;base64,AAAA") in
  let g := Service.File.mk "image/png" (inr "data:image/png;base64,BBBB") in
  let before := [Page.AppEvent (App.FileChange (Some [f]));
                 Page.NormalisationSettles 0 (inr "I0");
                 Page.Types "make it blue"; Page.EditBegins] in
  let between := [Page.AppEvent App.StartOver] in
  let e := Page.AppEvent (App.FileDrop (Some [g])) in
  let after := between ++ [e; Page.NormalisationSettles 1 (inr "J0")] in
  let p := Page.mkPending 1 (Page.EditCall (mkClosure ["I0"] 0)) in
  let w := Page.run before Page.init in
  let w' := Page.run after w in
  let v := Page.run between w in
  let result := @inr Exn.Thrown _ (Service.EditResult.mk "E1" "") in
  In p (Page.pending w)
  /\ (Page.mounted w < Page.mounted w')%nat
  /\ nth_error (Page.pending w') 0 = Some p
  /\ Page.imageFile v = None
  /\ Page.imageFile (Page.step v e) <> None
  /\ Page.mounted (Page.step v e) <> Page.mounted v
  /\ Page.mounted (Page.step v e) = 2%nat
  /\ option_map history (Page.editor w') = Some ["J0"]
  /\ option_map history (Page.editor (Page.step w' (Page.EditSettles 0 result)))
     = Some ["J0"].
Proof.
  cbn zeta.
  set (f := Service.File.mk "image/png" (inr "data:image/png;base64,AAAA")).
  set (g := Service.File.mk "image/png" (inr "data:image/png;base64,BBBB")).
  set (before := [Page.AppEvent (App.FileChange (Some [f]));
                  Page.NormalisationSettles 0 (inr "I0");
                  Page.Types "make it blue"; Page.EditBegins]).
  set (between := [Page.AppEvent App.StartOver]).
  set (e := Page.AppEvent (App.FileDrop (Some [g]))).
  set (after := between ++ [e; Page.NormalisationSettles 1 (inr "J0")]).
  set (p := Page.mkPending 1 (Page.EditCall (mkClosure ["I0"] 0))).
  set (w := Page.run before Page.init).
  assert (Hin : In p (Page.pending w)) by (left; reflexivity).
  assert (Hlt : (Page.mounted w < Page.mounted (Page.run after w))%nat)
    by (vm_compute; lia).
  assert (Hn : nth_error (Page.pending (Page.run after w)) 0 = Some p)
    by reflexivity.
  assert (Hnone : Page.imageFile (Page.run between w) = None) by reflexivity.
  assert (Hsome : Page.imageFile (Page.step (Page.run between w) e) <> None)
    by discriminate.
  assert (Hchg : Page.mounted (Page.step (Page.run between w) e)
                 <> Page.mounted (Page.run between w))
    by (vm_compute; lia).
  destruct (stale_edit_result_is_dropped before after between p 0
              (inr (Service.EditResult.mk "E1" "")) (inr "J0") e)
    as [Hdrop [Hup Hchanged]].
  destruct (Hdrop Hin (or_introl Hlt) Hn) as [He _].
  destruct (Hup Hnone Hsome) as [Hm _].
  destruct (Hchanged Hchg) as [_ [_ [Hm' _]]].
  split; [exact Hin|]. split; [exact Hlt|]. split; [exact Hn|].
  split; [exact Hnone|]. split; [exact Hsome|]. split; [exact Hchg|].
  split; [exact (eq_trans Hm eq_refl)|].
  split; [reflexivity|].
  exact (eq_trans (f_equal (option_map history) He) eq_refl).
Defined.

End HistoryClaims.

(* ================================================================== *)
(** ** The data-URL codec *)

Section Codec.

Import Service.
Local Open Scope string_scope.

Lemma append_assoc (a b c : string) : (a ++ b) ++ c = a ++ (b ++ c).
Proof. induction a as [|x a IH]; cbn; [reflexivity | now rewrite IH]. Qed.

Lemma all_chars_app (f : ascii -> bool) (a b : string) :
  all_chars f (a ++ b) = all_chars f a && all_chars f b.
Proof.
  induction a as [|c a IH]; cbn; [reflexivity|].
  rewrite IH. apply andb_assoc.
Qed.

(** A string without the separator is one field. *)
Lemma split_one (c : ascii) (s : string) :
  all_chars (fun a => negb (Ascii.eqb a c)) s = true -> split c s = [s].
Proof.
  induction s as [|a s IH]; cbn; [reflexivity|].
  intros H. apply andb_true_iff in H as [Ha Hs]. apply negb_true_iff in Ha.
  rewrite Ha, (IH Hs). reflexivity.
Qed.

(** The first field ends at the first separator. *)
Lemma split_first (c : ascii) (h r : string) :
  all_chars (fun a => negb (Ascii.eqb a c)) h = true ->
  split c (h ++ String c r) = h :: split c r.
Proof.
  induction h as [|a h IH]; cbn.
  - intros _. rewrite Ascii.eqb_refl. reflexivity.
  - intros H. apply andb_true_iff in H as [Ha Hs]. apply negb_true_iff in Ha.
    rewrite Ha, (IH Hs). reflexivity.
Qed.

(** The lazy group stops at the first semicolon. *)
Lemma lazy_until_semicolon_app (m r : string) :
  all_chars media_type_char m = true ->
  lazy_until_semicolon (m ++ String ";" r) = Some m.
Proof.
  induction m as [|c m IH]; cbn; [reflexivity|].
  intros H. apply andb_true_iff in H as [Hc Hm].
  unfold media_type_char in Hc. apply negb_true_iff in Hc.
  apply orb_false_elim in Hc as [Hc Hlt]. apply orb_false_elim in Hc as [_ Hsemi].
  rewrite Hsemi, Hlt, (IH Hm). reflexivity.
Qed.

Lemma media_type_char_no_comma (m : string) :
  all_chars media_type_char m = true -> no_comma m = true.
Proof.
  unfold no_comma. induction m as [|c m IH]; cbn; [reflexivity|].
  intros H. apply andb_true_iff in H as [Hc Hm]. rewrite (IH Hm), andb_true_r.
  unfold media_type_char in Hc. apply negb_true_iff in Hc.
  apply orb_false_elim in Hc as [Hc _]. apply orb_false_elim in Hc as [Hc _].
  rewrite Hc. reflexivity.
Qed.

(** Parsing the data URL built from a plain media type and a payload
    without comma gives both back. *)
Lemma dataUrlToParts_dataUrl (m payload : string) :
  plain_media_type m = true -> no_comma payload = true ->
  dataUrlToParts (dataUrl m payload) = inr (DataUrlParts.mk payload m).
Proof.
  unfold plain_media_type. intros Hm Hp.
  apply andb_true_iff in Hm as [Hne Hm].
  unfold dataUrlToParts, dataUrl.
  replace ("data:" ++ m ++ ";base64," ++ payload)
    with (("data:" ++ m ++ ";base64") ++ String "," payload).
  2:{ cbn. do 5 f_equal. apply append_assoc. }
  rewrite split_first.
  2:{ change (all_chars (fun a => negb (Ascii.eqb a ",")) ("data:" ++ m ++ ";base64"))
        with (no_comma ("data:" ++ m ++ ";base64")).
      unfold no_comma. rewrite !all_chars_app.
      fold (no_comma m). rewrite (media_type_char_no_comma m Hm). reflexivity. }
  rewrite (split_one "," payload Hp).
  cbn [append match_mime Ascii.eqb Bool.eqb]. cbn match.
  change (m ++ ";base64") with (m ++ String ";" "base64").
  rewrite (lazy_until_semicolon_app m "base64" Hm), Hne. reflexivity.
Qed.

(** No base64 digit is a comma. *)
Lemma digit_not_comma (n : N) : Ascii.eqb (Base64.digit n) "," = false.
Proof.
  unfold Base64.digit.
  remember (N.to_nat n) as k eqn:Ek. clear Ek n.
  do 65 (destruct k as [|k]; [reflexivity|]). reflexivity.
Qed.

Lemma encode_no_comma (bytes : list Byte.byte) :
  no_comma (Base64.encode bytes) = true.
Proof.
  unfold no_comma.
  assert (H : forall n (l : list Byte.byte), (List.length l <= n)%nat ->
                all_chars (fun c => negb (Ascii.eqb c ",")) (Base64.encode l) = true).
  { induction n as [|n IH]; intros l Hl.
    - destruct l; [reflexivity | cbn in Hl; lia].
    - destruct l as [|a [|b [|c rest]]]; cbn [Base64.encode all_chars];
        rewrite ?digit_not_comma; cbn [negb andb]; try reflexivity.
      apply IH. cbn in Hl. lia. }
  apply (H (List.length bytes)). lia.
Qed.

(** *** The parse gives the media type back only if it is plain *)

(** The lazy group holds no semicolon and no line terminator. *)
Lemma lazy_until_semicolon_plain (s g : string) :
  lazy_until_semicolon s = Some g ->
  all_chars (fun c => negb (Ascii.eqb c ";" || is_line_terminator c)) g = true.
Proof.
  revert g. induction s as [|c s IH]; cbn; intros g H; [discriminate|].
  destruct (Ascii.eqb c ";") eqn:Es; [injection H as <-; reflexivity|].
  destruct (is_line_terminator c) eqn:El; [discriminate|].
  destruct (lazy_until_semicolon s) as [g'|]; [|discriminate].
  injection H as <-. cbn. rewrite Es, El, (IH g' eq_refl). reflexivity.
Qed.

(** The lazy group is not longer than what precedes a semicolon. *)
Lemma lazy_until_semicolon_short (m r g : string) :
  lazy_until_semicolon (m ++ String ";" r) = Some g ->
  (String.length g <= String.length m)%nat.
Proof.
  revert g. induction m as [|c m IH]; cbn; intros g H.
  - injection H as <-. cbn. lia.
  - destruct (Ascii.eqb c ";"); [injection H as <-; cbn; lia|].
    destruct (is_line_terminator c); [discriminate|].
    destruct (lazy_until_semicolon (m ++ String ";" r)) as [g'|] eqn:E; [|discriminate].
    injection H as <-. cbn. specialize (IH g' eq_refl). lia.
Qed.

(** A capture found inside [m] is shorter than [m]. *)
Lemma match_mime_inside_shorter (m g : string) :
  match_mime (m ++ ";base64") = Some g ->
  (String.length g < String.length m)%nat.
Proof.
  revert g. induction m as [|c m IH]; cbn [append match_mime]; intros g H.
  - discriminate H.
  - cbn [String.length].
    destruct (Ascii.eqb c ":").
    + destruct (lazy_until_semicolon (m ++ ";base64")) as [g'|] eqn:E.
      * injection H as <-.
        pose proof (lazy_until_semicolon_short m "base64" g' E). lia.
      * specialize (IH g H). lia.
    + specialize (IH g H). lia.
Qed.

(** The number of fields is one more than the number of separators. *)
Lemma split_not_nil (c : ascii) (s : string) : split c s <> [].
Proof.
  destruct s as [|a s]; cbn; [discriminate|].
  destruct (Ascii.eqb a c); [discriminate|].
  destruct (split c s); discriminate.
Qed.

(** Splitting at a separator: the fields before it, then the fields after. *)
Lemma split_app_sep (c : ascii) (h r : string) :
  split c (h ++ String c r) = (split c h ++ split c r)%list.
Proof.
  induction h as [|a h IH]; cbn.
  - rewrite Ascii.eqb_refl. reflexivity.
  - rewrite IH. destruct (Ascii.eqb a c); [reflexivity|].
    pose proof (split_not_nil c h) as Hne.
    destruct (split c h) as [|p ps]; [congruence | reflexivity].
Qed.

Lemma split_single (c : ascii) (s : string) :
  List.length (split c s) = 1%nat ->
  all_chars (fun a => negb (Ascii.eqb a c)) s = true.
Proof.
  induction s as [|a s IH]; cbn; [reflexivity|].
  pose proof (split_not_nil c s) as Hne.
  destruct (Ascii.eqb a c); cbn.
  - destruct (split c s); [congruence | discriminate].
  - destruct (split c s) as [|p ps]; [congruence|]. exact IH.
Qed.

Lemma split_two_fields (c : ascii) (h r header rest : string) :
  split c (h ++ String c r) = [header; rest] ->
  all_chars (fun a => negb (Ascii.eqb a c)) h = true.
Proof.
  rewrite split_app_sep. intros H. apply split_single.
  apply (f_equal (@List.length string)) in H. rewrite length_app in H. cbn in H.
  pose proof (split_not_nil c r) as Hr. pose proof (split_not_nil c h) as Hh.
  destruct (split c r); [congruence|]. destruct (split c h); [congruence|].
  cbn in *. lia.
Qed.

(** If the parse of the data URL built from [m] gives [m] back, then [m]
    is a plain media type. *)
Lemma round_trip_only_if_plain (m payload : string) :
  dataUrlToParts (dataUrl m payload) = inr (DataUrlParts.mk payload m) ->
  plain_media_type m = true.
Proof.
  unfold dataUrlToParts, dataUrl, Exn.throw, Exn.ret. intros H.
  replace ("data:" ++ m ++ ";base64," ++ payload)
    with (("data:" ++ m ++ ";base64") ++ String "," payload) in H.
  2:{ cbn. do 5 f_equal. apply append_assoc. }
  destruct (split "," (("data:" ++ m ++ ";base64") ++ String "," payload))
    as [|header [|base64Data [|extra fields]]] eqn:Esplit; try discriminate H.
  pose proof (split_two_fields _ _ _ _ _ Esplit) as Hcomma.
  rewrite split_first in Esplit by exact Hcomma.
  injection Esplit as <- _.
  rewrite !all_chars_app in Hcomma. apply andb_true_iff in Hcomma as [_ Hcomma].
  apply andb_true_iff in Hcomma as [Hcomma _].
  change (String "d" (String "a" (String "t" (String "a" (String ":" (m ++ ";base64"))))))
    with ("data:" ++ m ++ ";base64") in H.
  destruct (match_mime ("data:" ++ m ++ ";base64")) as [g|] eqn:Emime; [|discriminate H].
  destruct (Js.truthy g) eqn:Hg; [|discriminate H].
  injection H as Hgm. subst g.
  cbn [append match_mime Ascii.eqb Bool.eqb] in Emime. cbn match in Emime.
  destruct (lazy_until_semicolon (m ++ ";base64")) as [g|] eqn:Elazy.
  - injection Emime as ->.
    pose proof (lazy_until_semicolon_plain _ _ Elazy) as Hplain.
    unfold plain_media_type. rewrite Hg. cbn [andb].
    clear -Hplain Hcomma. induction m as [|c m IH]; cbn in *; [reflexivity|].
    apply andb_true_iff in Hplain as [Hc Hm]. apply andb_true_iff in Hcomma as [Hc' Hm'].
    rewrite (IH Hm' Hm), andb_true_r. unfold media_type_char.
    apply negb_true_iff in Hc, Hc'. rewrite Hc'. exact (proj2 (negb_true_iff _) Hc).
  - pose proof (match_mime_inside_shorter m m Emime). lia.
Qed.

End Codec.

Section CodecClaims.

Import Service.
Local Open Scope string_scope.

(** C4, as stated, fails: a media type with a parameter is cut at its
    first semicolon when the data URL built from it is parsed. *)
Lemma round_trip_loses_parameter :
  let b := [Byte.x41; Byte.x42; Byte.x43] in
  let m := "image/svg+xml;charset=utf-8" in
  dataUrlToParts (dataUrl m (Base64.encode b))
    = inr (DataUrlParts.mk "QUJD" "image/svg+xml")
  /\ dataUrlToParts (dataUrl m (Base64.encode b))
       <> inr (DataUrlParts.mk (Base64.encode b) m).
Proof. cbn zeta. split; [reflexivity | discriminate]. Qed.

(** The other restrictions are needed as well: an empty media type, one
    with a comma and one with a line terminator make the parse fail. *)
Lemma round_trip_needs_plain_media_type :
  dataUrlToParts (dataUrl "" "QUJD")
    = inl (Exn.ErrorObj "Could not extract MIME type from data URL")
  /\ dataUrlToParts (dataUrl "image/png,x" "QUJD")
       = inl (Exn.ErrorObj "Invalid data URL format")
  /\ dataUrlToParts (dataUrl (String "010" "image/png") "QUJD")
       = inl (Exn.ErrorObj "Could not extract MIME type from data URL").
Proof. repeat split. Qed.

(** C4, amended.  For every byte sequence [b] and every media type [m]
    that is not empty and holds no comma, semicolon or line terminator,
    parsing the data URL built from [m] and the base64 text of [b] gives
    back that payload and that media type. *)
Theorem data_url_round_trip (b : list Byte.byte) (m : string)
  (Hm : plain_media_type m = true) :
  dataUrlToParts (dataUrl m (Base64.encode b))
    = inr (DataUrlParts.mk (Base64.encode b) m).
Proof.
  apply dataUrlToParts_dataUrl; [exact Hm | apply encode_no_comma].
Qed.

Lemma data_url_round_trip_witness :
  plain_media_type "image/png" = true
  /\ dataUrlToParts "data:image/png;base64,QUJD"
       = inr (DataUrlParts.mk "QUJD" "image/png").
Proof.
  split; [reflexivity|].
  exact (data_url_round_trip [Byte.x41; Byte.x42; Byte.x43] "image/png" eq_refl).
Defined.

End CodecClaims.

(* ================================================================== *)
(** ** Reading the response *)

Section Response.

Import Exn Service.
Local Open Scope string_scope.

Lemma append_empty_r (a : string) : a ++ "" = a.
Proof. induction a as [|x a IH]; cbn; [reflexivity | now rewrite IH]. Qed.

Lemma truthy_app (a b : string) :
  Js.truthy (a ++ b) = Js.truthy a || Js.truthy b.
Proof. destruct a; reflexivity. Qed.

(** The text that the loop has accumulated. *)
Lemma scan_text (parts : list Part.t) :
  forall acc, newText (fold_left scan_part parts acc) = newText acc ++ commentary parts.
Proof.
  induction parts as [|p parts IH]; intros acc; cbn [fold_left].
  - unfold commentary. cbn. now rewrite append_empty_r.
  - rewrite IH. unfold commentary, scan_part, is_inline, part_text. cbn [filter].
    destruct (Part.inlineData p) as [blob|]; cbn [negb map fold_right newText];
      [reflexivity|].
    destruct (Part.text p) as [t|]; cbn [Js.truthy_opt].
    + destruct t as [|c t]; cbn [Js.truthy newText].
      * reflexivity.
      * now rewrite append_assoc.
    + reflexivity.
Qed.

(** Parts without inline data leave the image and its media type alone. *)
Lemma scan_no_inline (parts : list Part.t) :
  forallb (fun q => negb (is_inline q)) parts = true ->
  forall acc,
    newImageBase64 (fold_left scan_part parts acc) = newImageBase64 acc
    /\ newMimeType (fold_left scan_part parts acc) = newMimeType acc.
Proof.
  induction parts as [|p parts IH]; intros H acc; cbn [fold_left]; [auto|].
  cbn in H. apply andb_true_iff in H as [Hp H].
  destruct (IH H (scan_part acc p)) as [-> ->].
  unfold scan_part, is_inline in *.
  destruct (Part.inlineData p); [discriminate|].
  destruct (Js.truthy_opt (Part.text p)); auto.
Qed.

(** The image and the media type after the loop are those of the last
    part with inline data. *)
Lemma scan_last_inline (parts : list Part.t) (blob : Blob.t) :
  last_inline parts blob ->
  forall acc,
    newImageBase64 (fold_left scan_part parts acc) = Blob.data blob
    /\ newMimeType (fold_left scan_part parts acc) = Blob.mimeType blob.
Proof.
  intros (before & part & after & -> & Hpart & Hafter) acc.
  rewrite fold_left_app. cbn [fold_left].
  destruct (scan_no_inline after Hafter (scan_part (fold_left scan_part before acc) part))
    as [-> ->].
  unfold scan_part. rewrite Hpart. auto.
Qed.

(** Once the request is built and the remote call has returned, both
    variants of the function read the response. *)
Lemma edit_reads_response (P : Platform) (image : Image) (prompt : string)
  (base64Data : option string) (mimeType : string) (response : Response.t) :
  request_image P image = inr (base64Data, mimeType) ->
  generateContent P base64Data mimeType prompt = inr response ->
  editImageWithGemini P image prompt = read_response mimeType response
  /\ editImageWithGemini_catching P image prompt = read_response mimeType response.
Proof.
  intros Hreq Hgen. unfold editImageWithGemini, editImageWithGemini_catching.
  rewrite Hreq. cbn [bind]. rewrite Hgen. cbn [bind try_catch]. auto.
Qed.

(** The message of a refusal determines the text it carries. *)
Lemma append_inj_l (a b c : string) : a ++ b = a ++ c -> b = c.
Proof. induction a as [|x a IH]; cbn; [auto|]. intros H. injection H as H. auto. Qed.

Lemma length_append (a b : string) :
  String.length (a ++ b) = (String.length a + String.length b)%nat.
Proof. induction a as [|x a IH]; cbn; [reflexivity | now rewrite IH]. Qed.

Lemma append_inj_r (a b c : string) : a ++ c = b ++ c -> a = b.
Proof.
  revert b. induction a as [|x a IH]; intros [|y b] H; cbn in H.
  - reflexivity.
  - apply (f_equal String.length) in H. cbn in H. rewrite length_append in H. lia.
  - apply (f_equal String.length) in H. cbn in H. rewrite length_append in H. lia.
  - injection H as -> H. f_equal. auto.
Qed.

Lemma refused_message_inj (t t' : string) :
  refused_message t = refused_message t' -> t = t'.
Proof.
  unfold refused_message. intros H.
  apply append_inj_l in H. apply append_inj_l in H.
  apply append_inj_r in H. exact H.
Qed.

End Response.

Section ResponseClaims.

Import Exn Service Examples.
Local Open Scope string_scope.

(** C5, as stated, fails: the last part with inline data carries an empty
    payload, and the call fails although an earlier part holds an image. *)
Lemma empty_last_inline_is_an_error :
  let parts := [image_part (Some "QUJD") (Some png); image_part (Some "") (Some png)] in
  last_inline parts (Blob.mk (Some "") (Some png))
  /\ editImageWithGemini (answering (response_of parts)) source "make it blue"
       = inl (ErrorObj no_image_message)
  /\ ~ returns_last_inline png parts.
Proof.
  cbn zeta.
  assert (Hlast : last_inline
                    [image_part (Some "QUJD") (Some png); image_part (Some "") (Some png)]
                    (Blob.mk (Some "") (Some png))).
  { exists [image_part (Some "QUJD") (Some png)], (image_part (Some "") (Some png)), [].
    repeat split. }
  split; [exact Hlast|]. split; [reflexivity|].
  intros H. specialize (H _ Hlast). discriminate H.
Qed.

(** C5, amended.  For every response in which the last part with inline
    data carries a payload that is not empty, the call returns the data
    URL made of that part's media type and payload, and as text the
    concatenation, in part order, of the texts of the parts without inline
    data. *)
Theorem last_inline_image_is_returned
  (P : Platform) (image : Image) (prompt : string)
  (base64Data : option string) (mimeType : string)
  (response : Response.t) (parts : list Part.t) (blob : Blob.t)
  (Hreq : request_image P image = inr (base64Data, mimeType))
  (Hgen : generateContent P base64Data mimeType prompt = inr response)
  (Hparts : response_parts response = Some parts)
  (Hlast : last_inline parts blob)
  (Hdata : Js.truthy_opt (Blob.data blob) = true) :
  let result :=
    EditResult.mk
      (dataUrl (interpolate (Blob.mimeType blob)) (interpolate (Blob.data blob)))
      (commentary parts) in
  editImageWithGemini P image prompt = inr result
  /\ editImageWithGemini_catching P image prompt = inr result.
Proof.
  cbn zeta.
  destruct (edit_reads_response P image prompt _ _ _ Hreq Hgen) as [-> ->].
  assert (H : read_response mimeType response
              = inr (EditResult.mk
                       (dataUrl (interpolate (Blob.mimeType blob))
                                (interpolate (Blob.data blob)))
                       (commentary parts))).
  { unfold read_response. rewrite Hparts.
    destruct (scan_last_inline parts blob Hlast (mkAcc None "" (Some mimeType)))
      as [Hd Hm].
    rewrite Hd, Hm, Hdata, scan_text. reflexivity. }
  rewrite H. auto.
Qed.

Lemma last_inline_image_is_returned_witness :
  let parts := [text_part "Here "; image_part (Some "QUJD") (Some png);
                text_part "you go"; image_part (Some "REVG") (Some "image/webp")] in
  editImageWithGemini (answering (response_of parts)) source "make it blue"
    = inr (EditResult.mk "data:image/webp;base64,REVG" "Here you go").
Proof.
  cbn zeta.
  refine (proj1 (last_inline_image_is_returned
            (answering (response_of
               [text_part "Here "; image_part (Some "QUJD") (Some png);
                text_part "you go"; image_part (Some "REVG") (Some "image/webp")]))
            source "make it blue" (Some "AAAA") png _ _
            (Blob.mk (Some "REVG") (Some "image/webp"))
            eq_refl eq_refl eq_refl _ eq_refl)).
  exists [text_part "Here "; image_part (Some "QUJD") (Some png); text_part "you go"],
         (image_part (Some "REVG") (Some "image/webp")), [].
  repeat split.
Defined.

(** A response without inline data in which some part has a text that is
    not empty has a commentary that is not empty. *)
Lemma commentary_truthy (parts : list Part.t) :
  forallb (fun q => negb (is_inline q)) parts = true ->
  existsb (fun q => Js.truthy_opt (Part.text q)) parts = true ->
  Js.truthy (commentary parts) = true.
Proof.
  unfold commentary. induction parts as [|p parts IH]; cbn; [discriminate|].
  intros Hno Hex. apply andb_true_iff in Hno as [Hp Hno]. rewrite Hp.
  cbn [map fold_right]. rewrite truthy_app.
  apply orb_true_iff in Hex as [Hex|Hex].
  - unfold part_text. destruct (Part.text p); [|discriminate]. cbn in Hex.
    rewrite Hex. reflexivity.
  - rewrite (IH Hno Hex). apply orb_true_r.
Qed.

(** A response whose only text is empty holds no text: the failure is the
    one for a missing image. *)
Lemma empty_text_is_a_missing_image :
  let parts := [text_part ""] in
  editImageWithGemini (answering (response_of parts)) source "make it blue"
    = inl (ErrorObj no_image_message)
  /\ no_image_message <> refused_message (commentary parts).
Proof. cbn zeta. split; [reflexivity | discriminate]. Qed.

(** C7.  For every response in which no part has inline data and at
    least one part has a text that is not empty, the call fails with
    the refusal whose message quotes the concatenation of the texts of
    all parts, in part order, verbatim: no other text gives that
    message. *)
Theorem text_only_response_is_refused
  (P : Platform) (image : Image) (prompt : string)
  (base64Data : option string) (mimeType : string)
  (response : Response.t) (parts : list Part.t)
  (Hreq : request_image P image = inr (base64Data, mimeType))
  (Hgen : generateContent P base64Data mimeType prompt = inr response)
  (Hparts : response_parts response = Some parts)
  (Hno : forallb (fun q => negb (is_inline q)) parts = true)
  (Htext : existsb (fun q => Js.truthy_opt (Part.text q)) parts = true) :
  let text := fold_right String.append "" (map part_text parts) in
  editImageWithGemini P image prompt = inl (ErrorObj (refused_message text))
  /\ editImageWithGemini_catching P image prompt = inl (ErrorObj (refused_message text))
  /\ (forall t, refused_message t = refused_message text -> t = text).
Proof.
  cbn zeta.
  destruct (edit_reads_response P image prompt _ _ _ Hreq Hgen) as [-> ->].
  assert (Hc : commentary parts = fold_right String.append "" (map part_text parts)).
  { unfold commentary. f_equal. f_equal. clear -Hno.
    induction parts as [|p parts IH]; cbn in *; [reflexivity|].
    apply andb_true_iff in Hno as [-> Hno]. now rewrite (IH Hno). }
  assert (H : read_response mimeType response
              = inl (ErrorObj (refused_message (commentary parts)))).
  { unfold read_response. rewrite Hparts.
    destruct (scan_no_inline parts Hno (mkAcc None "" (Some mimeType))) as [-> _].
    rewrite scan_text. cbn [newImageBase64 newText Js.truthy_opt negb append].
    rewrite (commentary_truthy parts Hno Htext). reflexivity. }
  rewrite H, Hc. repeat split. intros t Ht. exact (refused_message_inj _ _ Ht).
Qed.

Lemma text_only_response_is_refused_witness :
  let parts := [text_part "I cannot "; text_part ""; text_part "do that."] in
  editImageWithGemini (answering (response_of parts)) source "make it blue"
    = inl (ErrorObj (refused_message "I cannot do that.")).
Proof.
  cbn zeta.
  exact (proj1 (text_only_response_is_refused
           (answering (response_of
              [text_part "I cannot "; text_part ""; text_part "do that."]))
           source "make it blue" (Some "AAAA") png _ _
           eq_refl eq_refl eq_refl eq_refl eq_refl)).
Defined.

(** Whatever the request's media type, a last inline part without media
    type gives the data URL the media type [undefined]. *)
Lemma omitted_media_type_reads_undefined
  (mimeType : string) (parts : list Part.t) (data : string) :
  last_inline parts (Blob.mk (Some data) None) ->
  Js.truthy data = true ->
  read_response mimeType (response_of parts)
    = inr (EditResult.mk (dataUrl "undefined" data) (commentary parts)).
Proof.
  intros Hlast Hdata. unfold read_response. cbn [response_parts response_of
    Response.candidates Candidate.content Content.parts].
  destruct (scan_last_inline parts _ Hlast (mkAcc None "" (Some mimeType))) as [Hd Hm].
  rewrite Hd, Hm, scan_text. cbn [Blob.data Blob.mimeType Js.truthy_opt].
  rewrite Hdata. reflexivity.
Qed.

(** C8 at the failing input: the request is a PNG data URL, the one
    inline part of the response has a payload and no media type; the
    returned data URL has the media type [undefined], not [image/png]. *)
Theorem omitted_media_type_is_not_defaulted :
  let parts := [image_part (Some "QUJD") None] in
  let P := answering (response_of parts) in
  request_image P source = inr (Some "AAAA", "image/png")
  /\ editImageWithGemini P source "make it blue"
       = inr (EditResult.mk "data:undefined;base64,QUJD" "")
  /\ editImageWithGemini_catching P source "make it blue"
       = inr (EditResult.mk "data:undefined;base64,QUJD" "")
  /\ dataUrlToParts "data:undefined;base64,QUJD"
       = inr (DataUrlParts.mk "QUJD" "undefined").
Proof. cbn zeta. repeat split. Qed.

(** C6 at the failing input: the remote call throws an error whose message
    is the JSON text [{"error":{"code":429}}]; the quota error is thrown
    inside the inner [try] and caught by its own [catch], so the generic
    error comes out.  The same holds for every thrown value and every
    behaviour of [JSON.parse]. *)
Theorem quota_error_is_swallowed :
  JSON_parse (failing (ErrorObj body429)) body429 = inr json429
  /\ code_is_429 json429 = true
  /\ editImageWithGemini_catching (failing (ErrorObj body429)) source "make it blue"
       = inl (ErrorObj generic_message)
  /\ quota_message <> generic_message
  /\ (forall (P : Platform) (error : Thrown),
        on_generate_error P error = inl (ErrorObj generic_message)).
Proof.
  split; [reflexivity|]. split; [reflexivity|]. split; [reflexivity|].
  split; [discriminate|].
  intros P error. unfold on_generate_error.
  destruct (string_message error) as [message|]; [|reflexivity].
  destruct (JSON_parse P message) as [e|errorDetails]; [reflexivity|].
  cbn [bind]. destruct (code_is_429 errorDetails); reflexivity.
Qed.

End ResponseClaims.

(* ================================================================== *)
(** ** The normaliser *)

Section NormalizerClaims.

Import Exn Normalizer.
Local Open Scope Q_scope.

(** The scaled shorter side: [a * 1024 / b] for [0 < a <= b]. *)
Lemma scaled_side (a b : Q) :
  0 < a -> a <= b ->
  0 < a * 1024 / b <= 1024
  /\ (a * 1024 / b) * b == a * 1024.
Proof.
  intros Ha Hab. assert (Hb : 0 < b) by (eapply Qlt_le_trans; eassumption).
  repeat split.
  - apply Qlt_shift_div_l; [exact Hb|]. lra.
  - apply Qle_shift_div_r; [exact Hb|]. lra.
  - field. lra.
Qed.

(** The scaled size: which side is 1024, the other side in proportion,
    both inside the canvas. *)
Lemma newSize_fits (w h : Z) :
  (0 < w)%Z -> (0 < h)%Z ->
  ((w > h)%Z -> newWidth exact w h = 1024
                /\ newHeight exact w h == inject_Z h * 1024 / inject_Z w)
  /\ ((w <= h)%Z -> newHeight exact w h = 1024
                    /\ newWidth exact w h == inject_Z w * 1024 / inject_Z h)
  /\ newWidth exact w h * inject_Z h == newHeight exact w h * inject_Z w
  /\ 0 < newWidth exact w h <= 1024
  /\ 0 < newHeight exact w h <= 1024.
Proof.
  intros Hw Hh.
  assert (HwQ : 0 < inject_Z w) by (change 0 with (inject_Z 0); rewrite <- Zlt_Qlt; assumption).
  assert (HhQ : 0 < inject_Z h) by (change 0 with (inject_Z 0); rewrite <- Zlt_Qlt; assumption).
  unfold newWidth, newHeight, newSize, MAX_DIMENSION.
  cbn [exact num of_Z sub mul div].
  change (inject_Z 1024) with 1024.
  destruct (w >? h)%Z eqn:E; cbn [fst snd].
  - apply Z.gtb_lt in E.
    assert (Hle : inject_Z h <= inject_Z w) by (rewrite <- Zle_Qle; lia).
    destruct (scaled_side (inject_Z h) (inject_Z w) HhQ Hle) as [Hin Hprop].
    split; [intros _; split; reflexivity|].
    split; [intros Hc; lia|].
    split; [rewrite Hprop; ring|].
    split; [lra | exact Hin].
  - rewrite Z.gtb_ltb, Z.ltb_ge in E.
    assert (Hle : inject_Z w <= inject_Z h) by (rewrite <- Zle_Qle; lia).
    destruct (scaled_side (inject_Z w) (inject_Z h) HwQ Hle) as [Hin Hprop].
    split; [intros Hc; lia|].
    split; [intros _; split; reflexivity|].
    split; [rewrite Hprop; ring|].
    split; [exact Hin | lra].
Qed.

(** The numbers of the example, as binary64 values. *)
Lemma binary64_example :
  newWidth binary64 2000 1000 = of_Z binary64 1024
  /\ newHeight binary64 2000 1000 = of_Z binary64 512
  /\ x binary64 2000 1000 = of_Z binary64 0
  /\ y binary64 2000 1000 = of_Z binary64 256
  /\ SFsub 53 1024 (of_Z binary64 1024)
       (SFadd 53 1024 (y binary64 2000 1000) (newHeight binary64 2000 1000))
     = of_Z binary64 256.
Proof. repeat split; vm_compute; reflexivity. Qed.

(** Rounding shows as soon as the quotient is no binary64 value: an image
    of 1 by 3 pixels is drawn 341.3333333333333 wide at 341.33333333333337
    from the left; neither is a number of exact arithmetic, [1024 / 3] and
    [(1024 - 1024 / 3) / 2]. *)
Lemma binary64_rounds :
  newWidth binary64 1 3 = S754_finite false 6004799503160661 (-44)
  /\ x binary64 1 3 = S754_finite false 6004799503160662 (-44)
  /\ near 0 (newWidth binary64 1 3) (newWidth exact 1 3) = false
  /\ near 0 (x binary64 1 3) (x exact 1 3) = false.
Proof. repeat split; vm_compute; reflexivity. Qed.

(** C3.  For an image of [w] by [h] pixels the canvas is 1024 by 1024,
    filled with black, and encoded as [image/png]; the larger side of the
    image is drawn exactly 1024 long, at offset 0, and the other side in
    proportion, [h * 1024 / w] or [w * 1024 / h]; the image is centred, the
    offset on each axis being [(1024 - newDim) / 2].  The numbers are
    those of the code, in binary64; for every size up to 64 by 64 they are
    within [2^-44] of the numbers of exact arithmetic and the rectangle
    lies on the canvas.  An image of 2000 by 1000 is drawn 1024 by 512
    with 256 free above and 256 free below. *)
Theorem normalize_fits_and_centres
  (B : Browser) (file : Service.File.t) (src : string) (w h : Z) :
  let canvas := render src w h in
  let n := of_Z binary64 in
  let nw := newWidth binary64 w h in
  let nh := newHeight binary64 w h in
  let ox := x binary64 w h in
  let oy := y binary64 w h in
  (width canvas = 1024%Z /\ height canvas = 1024%Z
   /\ drawn canvas = [FillRect "black" (n 0%Z) (n 0%Z) (n 1024%Z) (n 1024%Z);
                      DrawImage src ox oy nw nh])
  /\ (Service.File.readAsDataURL file = inr src -> Js.truthy src = true ->
      decode B src = Some (w, h) -> getContext2d B = true ->
      normalizeImage B file = inr (toDataURL B canvas "image/png"))
  /\ ((w > h)%Z ->
      nw = n 1024%Z /\ ox = n 0%Z
      /\ nh = div binary64 (mul binary64 (n h) (n 1024%Z)) (n w)
      /\ oy = div binary64 (sub binary64 (n 1024%Z) nh) (n 2%Z))
  /\ ((w <= h)%Z ->
      nh = n 1024%Z /\ oy = n 0%Z
      /\ nw = div binary64 (mul binary64 (n w) (n 1024%Z)) (n h)
      /\ ox = div binary64 (sub binary64 (n 1024%Z) nw) (n 2%Z))
  /\ forallb (fun s => rounds_exact (1 # 2 ^ 44) (fst s) (snd s)) (sizes 64) = true
  /\ (newWidth binary64 2000 1000 = n 1024%Z
      /\ newHeight binary64 2000 1000 = n 512%Z
      /\ x binary64 2000 1000 = n 0%Z
      /\ y binary64 2000 1000 = n 256%Z
      /\ SFsub 53 1024 (n 1024%Z)
           (SFadd 53 1024 (y binary64 2000 1000) (newHeight binary64 2000 1000))
         = n 256%Z).
Proof.
  cbn zeta.
  split; [repeat split|].
  split.
  { intros Hread Hsrc Hdec Hctx. unfold normalizeImage.
    rewrite Hread, Hsrc, Hdec, Hctx. reflexivity. }
  split.
  { intros Hwh. apply Z.gt_lt, Z.gtb_lt in Hwh.
    unfold x, y, newWidth, newHeight, newSize. rewrite Hwh. cbn [fst snd].
    split; [reflexivity|]. split; [vm_compute; reflexivity|].
    split; reflexivity. }
  split.
  { intros Hwh. assert (E : (w >? h)%Z = false) by (rewrite Z.gtb_ltb; apply Z.ltb_ge; lia).
    unfold x, y, newWidth, newHeight, newSize. rewrite E. cbn [fst snd].
    split; [reflexivity|]. split; [vm_compute; reflexivity|].
    split; reflexivity. }
  split; [vm_compute; reflexivity|].
  exact binary64_example.
Qed.

Lemma normalize_fits_and_centres_witness :
  let B := mkBrowser (fun _ => Some (2000, 1000)%Z) true
             (fun canvas type => if (width canvas =? 1024)%Z then type else "") in
  let file := Service.File.mk "image/jpeg" (inr "data:image/jpeg;base64,AAAA") in
  (2000 > 1000)%Z
  /\ normalizeImage B file = inr "image/png"
  /\ newWidth binary64 2000 1000 = of_Z binary64 1024
  /\ newHeight binary64 2000 1000 = of_Z binary64 512
  /\ y binary64 2000 1000 = of_Z binary64 256.
Proof.
  cbn zeta.
  assert (Hwh : (2000 > 1000)%Z) by lia.
  pose proof (normalize_fits_and_centres
                (mkBrowser (fun _ => Some (2000, 1000)%Z) true
                   (fun canvas type => if (width canvas =? 1024)%Z then type else ""))
                (Service.File.mk "image/jpeg" (inr "data:image/jpeg;base64,AAAA"))
                "data:image/jpeg;base64,AAAA" 2000 1000)
    as (_ & Hnorm & Hwide & _ & _ & (_ & Hnh & _ & Hy & _)).
  split; [exact Hwh|].
  split; [exact (Hnorm eq_refl eq_refl eq_refl eq_refl)|].
  split; [exact (proj1 (Hwide Hwh))|]. split; [exact Hnh | exact Hy].
Defined.

End NormalizerClaims.

(* ================================================================== *)
(** ** More on the editor: navigation, the guard, the controls *)

Section EditorFacts.

Import Editor Controls.
Local Open Scope list_scope.

(** Setting the cursor back gives the state back. *)
(** Arithmetic on cursors after the projections are computed. *)
Ltac cursor :=
  cbn [currentIndex history prompt isLoading error loadingMessage setCurrentIndex];
  unfold Js.length in *; lia.

Lemma setCurrentIndex_same (s : State) (i : Z) :
  i = currentIndex s -> setCurrentIndex i s = s.
Proof. intros ->. destruct s; reflexivity. Qed.

Lemma handleUndo_moves (s : State) :
  0 < currentIndex s -> handleUndo s = setCurrentIndex (currentIndex s - 1) s.
Proof.
  intros H. unfold handleUndo.
  destruct (currentIndex s >? 0) eqn:E; [reflexivity|].
  rewrite Z.gtb_ltb, Z.ltb_ge in E. lia.
Qed.

Lemma handleRedo_moves (s : State) :
  currentIndex s < Js.length (history s) - 1 ->
  handleRedo s = setCurrentIndex (currentIndex s + 1) s.
Proof.
  intros H. unfold handleRedo.
  destruct (currentIndex s <? Js.length (history s) - 1) eqn:E; [reflexivity|].
  rewrite Z.ltb_ge in E. lia.
Qed.

Lemma handleUndo_stays (s : State) : currentIndex s <= 0 -> handleUndo s = s.
Proof.
  intros H. unfold handleUndo.
  destruct (currentIndex s >? 0) eqn:E; [|reflexivity].
  apply Z.gtb_lt in E. lia.
Qed.

Lemma handleRedo_stays (s : State) :
  Js.length (history s) - 1 <= currentIndex s -> handleRedo s = s.
Proof.
  intros H. unfold handleRedo.
  destruct (currentIndex s <? Js.length (history s) - 1) eqn:E; [|reflexivity].
  apply Z.ltb_lt in E. lia.
Qed.

Lemma setCurrentIndex_neq (s : State) (i : Z) :
  i <> currentIndex s -> setCurrentIndex i s <> s.
Proof. intros H E. apply (f_equal currentIndex) in E. cbn in E. congruence. Qed.

(** X1.  Undo and redo are inverse to each other: redo after an undo that
    moved, and undo after a redo that moved, give the state back. *)
Theorem undo_redo_inverse (s : State) :
  (0 < currentIndex s < Js.length (history s) -> handleRedo (handleUndo s) = s)
  /\ (0 <= currentIndex s < Js.length (history s) - 1 -> handleUndo (handleRedo s) = s).
Proof.
  split; intros H.
  - rewrite handleUndo_moves by lia.
    rewrite handleRedo_moves by cursor.
    destruct s; unfold setCurrentIndex; cbn [currentIndex history prompt isLoading error loadingMessage]. f_equal. lia.
  - rewrite handleRedo_moves by lia.
    rewrite handleUndo_moves by cursor.
    destruct s; unfold setCurrentIndex; cbn [currentIndex history prompt isLoading error loadingMessage]. f_equal. lia.
Qed.

Lemma undo_redo_inverse_witness :
  let s := mkState ["a"; "b"; "c"] 1 "" false None "" in
  0 < currentIndex s < Js.length (history s)
  /\ 0 <= currentIndex s < Js.length (history s) - 1
  /\ handleRedo (handleUndo s) = s /\ handleUndo (handleRedo s) = s.
Proof.
  cbn zeta.
  assert (H1 : 0 < 1 < 3) by lia. assert (H2 : 0 <= 1 < 3 - 1) by lia.
  destruct (undo_redo_inverse (mkState ["a"; "b"; "c"] 1 "" false None "")) as [Hr Hu].
  split; [exact H1|]. split; [exact H2|]. split; [exact (Hr H1) | exact (Hu H2)].
Defined.

(** X2.  Repeated undo stops at the first version and repeated redo at the
    last: after [n] undos the cursor is [max 0 (i - n)], after [n] redos it is
    [min (length - 1) (i + n)], and the history is untouched. *)
Theorem repeated_undo_redo_saturate (n : nat) (s : State)
  (Hi : 0 <= currentIndex s < Js.length (history s)) :
  (currentIndex (Nat.iter n handleUndo s) = Z.max 0 (currentIndex s - Z.of_nat n)
   /\ history (Nat.iter n handleUndo s) = history s)
  /\ (currentIndex (Nat.iter n handleRedo s)
        = Z.min (Js.length (history s) - 1) (currentIndex s + Z.of_nat n)
      /\ history (Nat.iter n handleRedo s) = history s).
Proof.
  split.
  - induction n as [|n [IHc IHh]]; [cbn; split; [lia | reflexivity]|].
    change (Nat.iter (S n) handleUndo s) with (handleUndo (Nat.iter n handleUndo s)).
    set (t := Nat.iter n handleUndo s) in *.
    destruct (Z_lt_le_dec 0 (currentIndex t)) as [Hpos|Hzero].
    + rewrite handleUndo_moves by exact Hpos. cbn [currentIndex history setCurrentIndex]. split; [lia | exact IHh].
    + rewrite handleUndo_stays by exact Hzero. split; [lia | exact IHh].
  - induction n as [|n [IHc IHh]]; [cbn; split; [lia | reflexivity]|].
    change (Nat.iter (S n) handleRedo s) with (handleRedo (Nat.iter n handleRedo s)).
    set (t := Nat.iter n handleRedo s) in *.
    destruct (Z_lt_le_dec (currentIndex t) (Js.length (history t) - 1)) as [Hlt|Hge].
    + rewrite handleRedo_moves by exact Hlt. cbn [currentIndex history setCurrentIndex]. rewrite IHh in Hlt. split; [lia | exact IHh].
    + rewrite handleRedo_stays by exact Hge. rewrite IHh in Hge. split; [lia | exact IHh].
Qed.

Lemma repeated_undo_redo_saturate_witness :
  let s := mkState ["a"; "b"; "c"] 1 "" false None "" in
  0 <= currentIndex s < Js.length (history s)
  /\ currentIndex (Nat.iter 5 handleUndo s) = 0
  /\ currentIndex (Nat.iter 5 handleRedo s) = 2.
Proof.
  cbn zeta. assert (H : 0 <= 1 < 3) by lia.
  destruct (repeated_undo_redo_saturate 5 (mkState ["a"; "b"; "c"] 1 "" false None "") H)
    as [[Hu _] [Hr _]].
  split; [exact H|]. split; [exact Hu | exact Hr].
Defined.




(** *** The guard of [handleEdit] *)

Lemma trim_start_blank (p : string) :
  Js.trim_start p = "" <-> Service.all_chars Js.is_space p = true.
Proof.
  induction p as [|c p IH]; cbn; [tauto|].
  destruct (Js.is_space c); cbn; [exact IH|]. split; discriminate.
Qed.

Lemma trim_start_head (p : string) (c : ascii) (r : string) :
  Js.trim_start p = String c r -> Js.is_space c = false.
Proof.
  induction p as [|a p IH]; cbn; [discriminate|].
  destruct (Js.is_space a) eqn:E; [exact IH|]. intros [= <- _]. exact E.
Qed.

Lemma trim_end_head (c : ascii) (r : string) :
  Js.is_space c = false -> Js.trim_end (String c r) <> "".
Proof.
  intros Hc. cbn. rewrite Hc. destruct (Js.trim_end r); discriminate.
Qed.

(** The trimmed prompt is empty exactly when the prompt is white space. *)
Lemma trim_blank (p : string) :
  Js.truthy (Js.trim p) = false <-> Service.all_chars Js.is_space p = true.
Proof.
  unfold Js.trim. rewrite <- trim_start_blank.
  destruct (Js.trim_start p) as [|c r] eqn:E; [cbn; tauto|].
  pose proof (trim_end_head c r (trim_start_head p c r E)) as Hne.
  split; [|discriminate].
  destruct (Js.trim_end (String c r)); [congruence | discriminate].
Qed.

(** X4.  An edit is refused exactly when the prompt consists of white space
    only (or is empty) or there is no current image; a refused edit shows
    "Please enter an editing instruction." and changes nothing else: no
    loader, no call, the prompt and the history as they were. *)
Theorem blank_prompt_is_refused (s : State) (r : Exn.t Service.EditResult.t) :
  (edit_rejected s = true <->
     Service.all_chars Js.is_space (prompt s) = true
     \/ Js.truthy_opt (currentImageUrl s) = false)
  /\ (edit_rejected s = true ->
      handleEdit r s = setError (Some "Please enter an editing instruction.") s).
Proof.
  split.
  - unfold edit_rejected. rewrite orb_true_iff, !negb_true_iff, trim_blank. tauto.
  - intros H. unfold handleEdit, handleEdit_begin. rewrite H. reflexivity.
Qed.

Lemma blank_prompt_is_refused_witness :
  let s := mkState ["I0"] 0 "   " false None "" in
  edit_rejected s = true
  /\ handleEdit (inr (Service.EditResult.mk "E" "")) s
       = mkState ["I0"] 0 "   " false (Some "Please enter an editing instruction.") "".
Proof.
  cbn zeta.
  destruct (blank_prompt_is_refused (mkState ["I0"] 0 "   " false None "")
              (inr (Service.EditResult.mk "E" ""))) as [[_ Hrej] Hedit].
  assert (H : edit_rejected (mkState ["I0"] 0 "   " false None "") = true)
    by (apply Hrej; left; reflexivity).
  split; [exact H | exact (Hedit H)].
Defined.

(** X5.  The Enter key: [handleKeyDown] either leaves the state alone or
    makes an edit that passes the guard, and it makes one exactly when the
    key is Enter without Shift, nothing is loading and the guard passes.  It
    never shows "Please enter an editing instruction.". *)
Theorem enter_submits_only_when_ready
  (key : string) (shiftKey : bool) (r : Exn.t Service.EditResult.t) (s : State) :
  (key = "Enter" /\ shiftKey = false /\ isLoading s = false /\ edit_rejected s = false
   /\ handleKeyDown key shiftKey r s = handleEdit r s)
  \/ ((key <> "Enter" \/ shiftKey = true \/ isLoading s = true \/ edit_rejected s = true)
      /\ handleKeyDown key shiftKey r s = s).
Proof.
  unfold handleKeyDown, edit_rejected.
  destruct (String.eqb_spec key "Enter") as [->|Hk]; cbn [andb].
  2:{ right. split; [left; exact Hk | reflexivity]. }
  destruct shiftKey; cbn [negb andb].
  { right. split; [right; left; reflexivity | reflexivity]. }
  destruct (Js.truthy (Js.trim (prompt s))); cbn [negb andb orb].
  2:{ right. split; [right; right; right; reflexivity | reflexivity]. }
  destruct (Js.truthy_opt (currentImageUrl s)); cbn [negb andb orb].
  2:{ right. split; [right; right; right; reflexivity | reflexivity]. }
  destruct (isLoading s); cbn [negb].
  { right. split; [right; right; left; reflexivity | reflexivity]. }
  left. repeat split; reflexivity.
Qed.

(** *** Where the images of the history come from *)

Lemma firstn_incl {A} (n : nat) (l : list A) : incl (firstn n l) l.
Proof.
  revert l. induction n as [|n IH]; intros l y Hy.
  - destruct Hy.
  - destruct l as [|a l]; [destruct Hy|].
    destruct Hy as [<-|Hy]; [left; reflexivity | right; exact (IH l y Hy)].
Qed.

Lemma step_brings (s : State) (e : Event) (seen : list string) :
  incl (history s) seen ->
  incl (history (step s e)) (seen ++ Provenance.brought_by e).
Proof.
  intros Hs. destruct e as [r|v|r| |]; cbn [step Provenance.brought_by].
  - destruct r as [err|url]; cbn; [intros x []|].
    intros x [<-|[]]. apply in_or_app. right. left. reflexivity.
  - unfold onChange. destruct (Js.truthy_opt (error s)); cbn;
      intros x Hx; apply in_or_app; left; exact (Hs x Hx).
  - destruct (edit_rejected s) eqn:Hrej.
    + unfold handleEdit, handleEdit_begin. rewrite Hrej. cbn.
      intros x Hx. apply in_or_app. left. exact (Hs x Hx).
    + destruct r as [err|result].
      * unfold handleEdit, handleEdit_begin. rewrite Hrej. cbn.
        intros x Hx. apply in_or_app. left. exact (Hs x Hx).
      * rewrite (handleEdit_accepted s result Hrej). cbn [history].
        intros x Hx. apply in_app_or in Hx as [Hx|Hx]; apply in_or_app.
        -- left. apply Hs. exact (firstn_incl _ _ x Hx).
        -- right. exact Hx.
  - unfold handleUndo. destruct (currentIndex s >? 0); cbn;
      intros x Hx; apply in_or_app; left; exact (Hs x Hx).
  - unfold handleRedo. destruct (currentIndex s <? Js.length (history s) - 1); cbn;
      intros x Hx; apply in_or_app; left; exact (Hs x Hx).
Qed.

Lemma run_brings (es : list Event) :
  forall s seen,
    incl (history s) seen ->
    incl (history (run es s)) (seen ++ Provenance.brought es).
Proof.
  induction es as [|e es IH]; intros s seen Hs; cbn.
  - rewrite app_nil_r. exact Hs.
  - unfold Provenance.brought in *. rewrite app_assoc.
    apply IH. apply step_brings. exact Hs.
Qed.

(** X6.  Nothing enters the history but what the events bring: after any
    run, every image of the history is the normalised image of a new upload
    or the result of an edit whose call resolved, in that run. *)
Theorem history_holds_only_delivered_images (es : list Event) (image : string)
  (Hin : In image (history (run es init))) :
  In image (Provenance.brought es).
Proof.
  apply (run_brings es init [] (fun x H => H) image Hin).
Qed.

Lemma history_holds_only_delivered_images_witness :
  let es := [NewImage (inr "I0"); Type_ "p"; Edit (inr (Service.EditResult.mk "E" ""));
             Edit (inr (Service.EditResult.mk "F" "")); Undo] in
  In "E" (history (run es init)) /\ In "E" (Provenance.brought es).
Proof.
  cbn zeta.
  assert (Hin : In "E" (history (run [NewImage (inr "I0"); Type_ "p";
                                      Edit (inr (Service.EditResult.mk "E" ""));
                                      Edit (inr (Service.EditResult.mk "F" "")); Undo]
                                  init)))
    by (right; left; reflexivity).
  split; [exact Hin|].
  exact (history_holds_only_delivered_images _ "E" Hin).
Defined.

(** *** The loader *)

Lemma step_clears_loader (s : State) (e : Event) :
  isLoading s = false -> isLoading (step s e) = false.
Proof.
  intros H. destruct e as [r|v|r| |]; cbn [step].
  - reflexivity.
  - unfold onChange. destruct (Js.truthy_opt (error s)); exact H.
  - unfold handleEdit, handleEdit_begin. destruct (edit_rejected s); [exact H | reflexivity].
  - unfold handleUndo. destruct (currentIndex s >? 0); exact H.
  - unfold handleRedo. destruct (currentIndex s <? Js.length (history s) - 1); exact H.
Qed.

(** X7.  When every handler runs to its end before the next event, the
    loader is off after every run: each [finally] has switched it off. *)
Theorem loader_is_off_after_every_run (es : list Event) :
  isLoading (run es init) = false.
Proof.
  assert (H : forall t, isLoading t = false -> isLoading (run es t) = false).
  { induction es as [|e es IH]; intros t Ht; [exact Ht|].
    cbn. apply IH, step_clears_loader, Ht. }
  apply H. reflexivity.
Qed.

End EditorFacts.

(* ================================================================== *)
(** ** The buttons and the download *)

Section ControlFacts.

Import Editor Controls.
Local Open Scope list_scope.

(** X8.  While the editor is loading, a click on Undo or Redo does nothing
    and Download is disabled.  While it is idle, each of the three buttons
    is disabled exactly when its handler would do nothing: Undo at the first
    version (or without history), Redo at the last, Download without a
    current image. *)
Theorem buttons_follow_the_handlers (name : string) (s : State) :
  (isLoading s = true ->
     click (undo_button s) handleUndo s = s
     /\ click (redo_button s) handleRedo s = s
     /\ ActionButton.disabled_attribute (download_button s) = true)
  /\ (isLoading s = false ->
      (ActionButton.disabled_attribute (undo_button s) = true <-> handleUndo s = s)
      /\ (ActionButton.disabled_attribute (redo_button s) = true <-> handleRedo s = s)
      /\ (ActionButton.disabled_attribute (download_button s) = true
          <-> handleDownload name s = None)
      /\ click (undo_button s) handleUndo s = handleUndo s
      /\ click (redo_button s) handleRedo s = handleRedo s).
Proof.
  unfold click, undo_button, redo_button, download_button,
    ActionButton.disabled_attribute. cbn [ActionButton.disabled].
  split; intros Hl; rewrite Hl.
  - rewrite !orb_true_r. repeat split.
  - rewrite !orb_false_r. repeat split.
    + intros H. apply handleUndo_stays. apply Z.leb_le. exact H.
    + intros H. destruct (currentIndex s <=? 0) eqn:E; [reflexivity|].
      apply Z.leb_gt in E. rewrite handleUndo_moves in H by exact E.
      exfalso. revert H. apply setCurrentIndex_neq. lia.
    + intros H. apply handleRedo_stays. apply Z.geb_le in H. exact H.
    + intros H. destruct (currentIndex s >=? Js.length (history s) - 1) eqn:E;
        [reflexivity|].
      rewrite Z.geb_leb, Z.leb_gt in E. rewrite handleRedo_moves in H by exact E.
      exfalso. revert H. apply setCurrentIndex_neq. lia.
    + intros H. apply negb_true_iff in H. unfold handleDownload.
      destruct (currentImageUrl s) as [u|]; [|reflexivity].
      cbn in H. rewrite H. reflexivity.
    + unfold handleDownload.
      destruct (currentImageUrl s) as [u|]; [|reflexivity].
      cbn. destruct (Js.truthy u); [discriminate | reflexivity].
    + destruct (currentIndex s <=? 0) eqn:E; [|reflexivity].
      symmetry. apply handleUndo_stays. apply Z.leb_le. exact E.
    + destruct (currentIndex s >=? Js.length (history s) - 1) eqn:E; [|reflexivity].
      symmetry. apply handleRedo_stays. apply Z.geb_le in E. exact E.
Qed.

Lemma buttons_follow_the_handlers_witness :
  let busy := mkState ["I0"; "I1"] 1 "" true None "" in
  let idle := mkState ["I0"; "I1"] 1 "" false None "" in
  isLoading busy = true /\ isLoading idle = false
  /\ click (undo_button busy) handleUndo busy = busy
  /\ handleRedo idle = idle
  /\ click (undo_button idle) handleUndo idle = mkState ["I0"; "I1"] 0 "" false None "".
Proof.
  cbn zeta.
  destruct (buttons_follow_the_handlers "photo.png"
              (mkState ["I0"; "I1"] 1 "" true None "")) as [Hbusy _].
  destruct (buttons_follow_the_handlers "photo.png"
              (mkState ["I0"; "I1"] 1 "" false None "")) as [_ Hidle].
  destruct (Hbusy eq_refl) as [Hu _].
  destruct (Hidle eq_refl) as (_ & Hr & _ & Hc & _).
  split; [reflexivity|]. split; [reflexivity|]. split; [exact Hu|].
  split; [exact (proj1 Hr eq_refl) | exact Hc].
Defined.

(** X9.  The Generate button passes its own [disabled], which replaces the
    one computed from [isLoading]: the button is disabled exactly when the
    guard of [handleEdit] refuses, whether or not an edit is in flight.  With
    a prompt and a current image, a click while loading starts another edit,
    where the Enter key does nothing. *)
Theorem generate_button_ignores_loading
  (s : State) (r : Exn.t Service.EditResult.t)
  (Hbusy : isLoading s = true) (Hok : edit_rejected s = false) :
  ActionButton.disabled_attribute (generate_button s) = edit_rejected s
  /\ click (generate_button s) (handleEdit r) s = handleEdit r s
  /\ handleKeyDown "Enter" false r s = s
  /\ (forall loading disabled,
        ActionButton.disabled_attribute (ActionButton.mk loading (Some disabled))
          = disabled)
  /\ (forall loading,
        ActionButton.disabled_attribute (ActionButton.mk loading None)
          = ActionButton.loading (ActionButton.mk loading None)).
Proof.
  split; [reflexivity|].
  split; [unfold click; cbn; rewrite Hok; reflexivity|].
  split; [|split; reflexivity].
  unfold handleKeyDown. rewrite Hbusy. cbn [negb]. rewrite !andb_false_r. reflexivity.
Qed.

Lemma generate_button_ignores_loading_witness :
  let s := mkState ["I0"] 0 "make it blue" true None "Photon is working its magic..." in
  let r := @inr Exn.Thrown _ (Service.EditResult.mk "E" "") in
  isLoading s = true /\ edit_rejected s = false
  /\ history (click (generate_button s) (handleEdit r) s) = ["I0"; "E"]
  /\ handleKeyDown "Enter" false r s = s.
Proof.
  cbn zeta.
  destruct (generate_button_ignores_loading
              (mkState ["I0"] 0 "make it blue" true None "Photon is working its magic...")
              (inr (Service.EditResult.mk "E" "")) eq_refl eq_refl)
    as (_ & Hclick & Hkey & _).
  split; [reflexivity|]. split; [reflexivity|].
  split; [rewrite Hclick; reflexivity | exact Hkey].
Defined.

(** One code unit of a sanitized name. *)
Lemma sanitized_char (c : ascii) :
  let d := lower (if is_name_char c then c else "_"%char) in
  is_safe_char d = true
  /\ lower (if is_name_char d then d else "_"%char) = d.
Proof.
  destruct c as [[] [] [] [] [] [] [] []]; split; reflexivity.
Qed.

Lemma all_chars_map_chars (f : ascii -> bool) (g : ascii -> ascii) (s : string) :
  (forall c, f (g c) = true) -> Service.all_chars f (map_chars g s) = true.
Proof.
  intros H. induction s as [|c s IH]; cbn; [reflexivity|]. rewrite H, IH. reflexivity.
Qed.

Lemma map_chars_map_chars (f g : ascii -> ascii) (s : string) :
  map_chars f (map_chars g s) = map_chars (fun c => f (g c)) s.
Proof. induction s as [|c s IH]; cbn; [reflexivity | now rewrite IH]. Qed.

Lemma map_chars_ext (f g : ascii -> ascii) (s : string) :
  (forall c, f c = g c) -> map_chars f s = map_chars g s.
Proof. intros H. induction s as [|c s IH]; cbn; [reflexivity | now rewrite H, IH]. Qed.

Lemma length_map_chars (f : ascii -> ascii) (s : string) :
  String.length (map_chars f s) = String.length s.
Proof. induction s as [|c s IH]; cbn; [reflexivity | now rewrite IH]. Qed.

(** X10.  The name of a download: the sanitized file name has the length of
    the file name and holds only lower-case letters, digits, dots and
    underscores, and sanitizing it again changes nothing.  There is a link
    exactly when there is a current image; it points to that image and is
    named [edited-v], the cursor plus one, a dash and the sanitized name. *)
Theorem download_name_is_safe (name : string) (s : State) :
  Service.all_chars is_safe_char (sanitizedName name) = true
  /\ String.length (sanitizedName name) = String.length name
  /\ sanitizedName (sanitizedName name) = sanitizedName name
  /\ (handleDownload name s = None <-> Js.truthy_opt (currentImageUrl s) = false)
  /\ (forall link, handleDownload name s = Some link ->
        currentImageUrl s = Some (href link)
        /\ download link
           = ("edited-v" ++ decimal (currentIndex s + 1) ++ "-" ++ sanitizedName name)%string).
Proof.
  unfold sanitizedName, toLowerCase, replace_other.
  split; [|split; [|split; [|split]]].
  - rewrite map_chars_map_chars. apply all_chars_map_chars.
    intros c. exact (proj1 (sanitized_char c)).
  - now rewrite !length_map_chars.
  - rewrite !map_chars_map_chars. apply map_chars_ext.
    intros c. exact (proj2 (sanitized_char c)).
  - unfold handleDownload. destruct (currentImageUrl s) as [u|]; cbn; [|tauto].
    destruct (Js.truthy u); split; congruence.
  - intros link. unfold handleDownload.
    destruct (currentImageUrl s) as [u|]; [|discriminate].
    destruct (Js.truthy u); [|discriminate].
    intros [= <-]. split; reflexivity.
Qed.

Lemma download_name_is_safe_witness :
  let s := mkState ["I0"; "I1"] 1 "" false None "" in
  handleDownload "My Photo (1).PNG" s
    = Some (mkLink "I1" "edited-v2-my_photo__1_.png").
Proof.
  cbn zeta.
  destruct (download_name_is_safe "My Photo (1).PNG"
              (mkState ["I0"; "I1"] 1 "" false None "")) as (_ & _ & _ & _ & H).
  destruct (H (mkLink "I1" "edited-v2-my_photo__1_.png") eq_refl) as [_ _].
  reflexivity.
Defined.

End ControlFacts.

(* ================================================================== *)
(** ** More on the service: data URLs, requests, outcomes *)

Section ServiceFacts.

Import Exn Service Text.
Local Open Scope string_scope.

Lemma join_cons (c : ascii) (x y : string) (rest : list string) :
  join c (x :: y :: rest) = x ++ String c (join c (y :: rest)).
Proof. reflexivity. Qed.

(** Joining the fields of a split gives the string back. *)
Lemma join_split (c : ascii) (s : string) : join c (split c s) = s.
Proof.
  induction s as [|a s IH]; [reflexivity|].
  cbn [split]. pose proof (split_not_nil c s) as Hne.
  destruct (Ascii.eqb_spec a c) as [->|Hac].
  - destruct (split c s) as [|p ps]; [congruence|].
    rewrite join_cons, IH. reflexivity.
  - destruct (split c s) as [|p ps]; [congruence|].
    destruct ps as [|q qs].
    + cbn in IH. cbn. now rewrite IH.
    + rewrite join_cons. rewrite join_cons in IH. cbn [append]. now rewrite IH.
Qed.

(** No field of a split holds the separator. *)
Lemma split_fields_clean (c : ascii) (s : string) :
  Forall (fun f => all_chars (fun a => negb (Ascii.eqb a c)) f = true) (split c s).
Proof.
  induction s as [|a s IH]; cbn [split]; [repeat constructor|].
  pose proof (split_not_nil c s) as Hne.
  destruct (Ascii.eqb a c) eqn:E.
  - constructor; [reflexivity | exact IH].
  - destruct (split c s) as [|p ps]; [congruence|].
    inversion IH as [|? ? Hp Hps]; subst. constructor; [|exact Hps].
    cbn. rewrite E, Hp. reflexivity.
Qed.

(** There is one field more than there are separators. *)
Lemma length_split (c : ascii) (s : string) :
  List.length (split c s) = S (count_char c s).
Proof.
  induction s as [|a s IH]; cbn [split count_char]; [reflexivity|].
  pose proof (split_not_nil c s) as Hne.
  destruct (Ascii.eqb a c); cbn [List.length]; [now rewrite IH|].
  destruct (split c s) as [|p ps]; [congruence|]. cbn [List.length] in *. lia.
Qed.

(** What the lazy group and the match stand in. *)
Lemma lazy_until_semicolon_inv (s g : string) :
  lazy_until_semicolon s = Some g -> exists post, s = g ++ String ";" post.
Proof.
  revert g. induction s as [|c s IH]; cbn; intros g H; [discriminate|].
  destruct (Ascii.eqb_spec c ";") as [->|Hc]; [injection H as <-; now exists s|].
  destruct (is_line_terminator c); [discriminate|].
  destruct (lazy_until_semicolon s) as [g'|]; [|discriminate].
  injection H as <-. destruct (IH g' eq_refl) as [post ->]. now exists post.
Qed.

Lemma match_mime_inv (header g : string) :
  match_mime header = Some g ->
  exists pre post, header = pre ++ String ":" (g ++ String ";" post)
                   /\ all_chars (fun c => negb (Ascii.eqb c ";" || is_line_terminator c)) g
                      = true.
Proof.
  induction header as [|c h IH]; cbn; intros H; [discriminate|].
  destruct (Ascii.eqb_spec c ":") as [->|Hc].
  - destruct (lazy_until_semicolon h) as [g'|] eqn:E.
    + injection H as <-. destruct (lazy_until_semicolon_inv h g' E) as [post ->].
      exists "", post. split; [reflexivity|].
      exact (lazy_until_semicolon_plain _ _ E).
    + destruct (IH H) as (pre & post & -> & Hg).
      exists (String ":" pre), post. split; [reflexivity | exact Hg].
  - destruct (IH H) as (pre & post & -> & Hg).
    exists (String c pre), post. split; [reflexivity | exact Hg].
Qed.

(** X11.  What a successful parse of a data URL tells: the input is the
    header, a comma and the payload, neither holding another comma; the
    media type is not empty, holds no semicolon and no line terminator, and
    stands in the header between a colon and a semicolon. *)
Theorem parsed_data_url_shape (dataUrl : string) (parts : DataUrlParts.t)
  (H : dataUrlToParts dataUrl = inr parts) :
  exists pre post,
    dataUrl = (pre ++ String ":" (DataUrlParts.mimeType parts ++ String ";" post))
                ++ String "," (DataUrlParts.base64Data parts)
    /\ no_comma pre = true /\ no_comma post = true
    /\ no_comma (DataUrlParts.base64Data parts) = true
    /\ Js.truthy (DataUrlParts.mimeType parts) = true
    /\ all_chars (fun c => negb (Ascii.eqb c ";" || is_line_terminator c))
         (DataUrlParts.mimeType parts) = true.
Proof.
  unfold dataUrlToParts, throw, ret in H.
  pose proof (join_split "," dataUrl) as Hjoin.
  pose proof (split_fields_clean "," dataUrl) as Hclean.
  destruct (split "," dataUrl) as [|header [|base64Data [|extra fields]]];
    try discriminate H.
  destruct (match_mime header) as [g|] eqn:Emime; [|discriminate H].
  destruct (Js.truthy g) eqn:Hg; [|discriminate H].
  injection H as <-. cbn [DataUrlParts.mimeType DataUrlParts.base64Data].
  destruct (match_mime_inv header g Emime) as (pre & post & -> & Hplain).
  inversion Hclean as [|? ? Hh Hrest]; subst. inversion Hrest as [|? ? Hb _]; subst.
  change (String ":" (g ++ String ";" post)) with (":" ++ g ++ String ";" post) in Hh.
  rewrite !all_chars_app in Hh.
  apply andb_true_iff in Hh as [Hpre Hh]. apply andb_true_iff in Hh as [_ Hh].
  apply andb_true_iff in Hh as [_ Hpost]. cbn in Hpost.
  exists pre, post. unfold no_comma. repeat split; assumption.
Qed.

Lemma parsed_data_url_shape_witness :
  exists pre post,
    "data:image/png;base64,QUJD"
      = (pre ++ String ":" ("image/png" ++ String ";" post)) ++ String "," "QUJD".
Proof.
  destruct (parsed_data_url_shape "data:image/png;base64,QUJD"
              (DataUrlParts.mk "QUJD" "image/png") eq_refl)
    as (pre & post & Heq & _).
  exists pre, post. exact Heq.
Defined.

(** X12.  The two failures of the parse: "Invalid data URL format" exactly
    when the string does not hold exactly one comma; with one comma,
    "Could not extract MIME type from data URL" exactly when the part before
    the comma has no colon followed, on the same line, by a semicolon, or has
    them with nothing in between at the first such place. *)
Theorem data_url_failures (dataUrl : string) :
  (dataUrlToParts dataUrl = inl (ErrorObj "Invalid data URL format")
   <-> count_char "," dataUrl <> 1%nat)
  /\ (count_char "," dataUrl = 1%nat ->
      exists header payload,
        dataUrl = header ++ String "," payload
        /\ (dataUrlToParts dataUrl
              = inl (ErrorObj "Could not extract MIME type from data URL")
            <-> match_mime header = None \/ match_mime header = Some "")
        /\ (forall mime, match_mime header = Some mime -> Js.truthy mime = true ->
              dataUrlToParts dataUrl = inr (DataUrlParts.mk payload mime))).
Proof.
  pose proof (length_split "," dataUrl) as Hlen.
  pose proof (join_split "," dataUrl) as Hjoin.
  unfold dataUrlToParts, throw, ret.
  destruct (split "," dataUrl) as [|header [|payload [|extra fields]]];
    cbn [List.length] in Hlen.
  - discriminate Hlen.
  - split; [split; [lia | reflexivity]|]. lia.
  - assert (Hone : count_char "," dataUrl = 1%nat) by lia.
    split.
    + split; [|congruence].
      destruct (match_mime header) as [g|]; [destruct (Js.truthy g)|]; discriminate.
    + intros _. exists header, payload.
      split; [unfold join in Hjoin; cbn in Hjoin; now rewrite <- Hjoin|].
      split.
      * destruct (match_mime header) as [g|]; [|split; [auto | reflexivity]].
        destruct g as [|c g]; cbn [Js.truthy].
        -- split; [auto | reflexivity].
        -- split; [discriminate | intros [H|H]; discriminate H].
      * intros mime -> ->. reflexivity.
  - split; [split; [lia | reflexivity]|]. lia.
Qed.

Lemma data_url_failures_witness :
  count_char "," "data:;base64,QUJD" = 1%nat
  /\ dataUrlToParts "data:;base64,QUJD"
       = inl (ErrorObj "Could not extract MIME type from data URL")
  /\ dataUrlToParts "no comma here" = inl (ErrorObj "Invalid data URL format").
Proof.
  split; [reflexivity|].
  destruct (data_url_failures "data:;base64,QUJD") as [_ H].
  destruct (H eq_refl) as (header & payload & _ & _ & _).
  split; reflexivity.
Defined.

(** X13.  The two ways to the payload agree: when the data URL that the
    file reader gives for a file parses, [fileToBase64] gives the payload of
    the parse; when it holds no comma, [fileToBase64] gives [undefined]; a
    failure of the reader is passed on.  The media type of a file request is
    the file's own [type], whatever the data URL says. *)
Theorem file_payload_agrees_with_parse
  (P : Platform) (fileType result : string) :
  let file := File.mk fileType (inr result) in
  (forall parts, dataUrlToParts result = inr parts ->
     fileToBase64 file = inr (Some (DataUrlParts.base64Data parts))
     /\ request_image P (ImageFile file)
        = inr (Some (DataUrlParts.base64Data parts), fileType))
  /\ (no_comma result = true ->
      request_image P (ImageFile file) = inr (None, fileType))
  /\ (forall error, request_image P (ImageFile (File.mk fileType (inl error)))
                    = inl error).
Proof.
  cbn zeta. unfold request_image, fileToBase64. cbn [File.readAsDataURL File.type bind ret].
  split; [|split].
  - intros parts H. unfold dataUrlToParts, throw, ret in H.
    destruct (split "," result) as [|header [|payload [|extra fields]]];
      try discriminate H.
    destruct (match_mime header) as [g|]; [|discriminate H].
    destruct (Js.truthy g); [|discriminate H].
    injection H as <-. split; reflexivity.
  - intros H. rewrite (split_one "," result H). reflexivity.
  - reflexivity.
Qed.

Lemma file_payload_agrees_with_parse_witness :
  no_comma "data:" = true
  /\ fileToBase64 (File.mk "image/jpeg" (inr "data:image/jpeg;base64,QUJD"))
       = inr (Some "QUJD")
  /\ request_image (Examples.answering (response_of []))
       (ImageFile (File.mk "image/jpeg" (inr "data:"))) = inr (None, "image/jpeg").
Proof.
  split; [reflexivity|].
  destruct (file_payload_agrees_with_parse (Examples.answering (response_of []))
              "image/jpeg" "data:image/jpeg;base64,QUJD") as [Hparse _].
  destruct (file_payload_agrees_with_parse (Examples.answering (response_of []))
              "image/jpeg" "data:") as [_ [Hnone _]].
  split; [exact (proj1 (Hparse _ eq_refl)) | exact (Hnone eq_refl)].
Defined.

(** What the response gives when its last inline part has a payload. *)
Lemma read_response_last_inline
  (mimeType : string) (response : Response.t) (parts : list Part.t) (blob : Blob.t) :
  response_parts response = Some parts ->
  last_inline parts blob ->
  Js.truthy_opt (Blob.data blob) = true ->
  read_response mimeType response
    = inr (EditResult.mk
             (dataUrl (interpolate (Blob.mimeType blob)) (interpolate (Blob.data blob)))
             (commentary parts)).
Proof.
  intros Hparts Hlast Hdata. unfold read_response. rewrite Hparts.
  destruct (scan_last_inline parts blob Hlast (mkAcc None "" (Some mimeType))) as [Hd Hm].
  rewrite Hd, Hm, Hdata, scan_text. reflexivity.
Qed.

(** X14.  Edits are cumulative: when the last inline part of the response
    has a payload without comma and a plain media type (or none, which reads
    [undefined]), the returned image URL, given back to the service as the
    next source, yields exactly that payload and that media type as the
    inline data of the next request, on any platform. *)
Theorem edit_result_feeds_next_request
  (P P' : Platform) (image : Image) (prompt : string)
  (base64Data : option string) (mimeType : string)
  (response : Response.t) (parts : list Part.t) (blob : Blob.t) (data : string)
  (Hreq : request_image P image = inr (base64Data, mimeType))
  (Hgen : generateContent P base64Data mimeType prompt = inr response)
  (Hparts : response_parts response = Some parts)
  (Hlast : last_inline parts blob)
  (Hdata : Blob.data blob = Some data)
  (Htruthy : Js.truthy data = true)
  (Hcomma : no_comma data = true)
  (Hmime : plain_media_type (interpolate (Blob.mimeType blob)) = true) :
  exists result,
    editImageWithGemini P image prompt = inr result
    /\ request_image P' (ImageString (EditResult.imageUrl result))
       = inr (Some data, interpolate (Blob.mimeType blob)).
Proof.
  destruct (edit_reads_response P image prompt _ _ _ Hreq Hgen) as [-> _].
  rewrite (read_response_last_inline mimeType response parts blob Hparts Hlast)
    by (rewrite Hdata; exact Htruthy).
  eexists. split; [reflexivity|].
  cbn [EditResult.imageUrl]. rewrite Hdata. cbn [interpolate].
  unfold request_image.
  change (startsWith "blob:" (dataUrl (interpolate (Blob.mimeType blob)) data)) with false.
  cbn match. rewrite (dataUrlToParts_dataUrl _ _ Hmime Hcomma). reflexivity.
Qed.

Lemma edit_result_feeds_next_request_witness :
  let parts := [Examples.text_part "Done."; Examples.image_part (Some "QUJD") None] in
  exists result,
    editImageWithGemini (Examples.answering (response_of parts)) Examples.source "make it blue"
      = inr result
    /\ request_image (Examples.failing Falsy) (ImageString (EditResult.imageUrl result))
       = inr (Some "QUJD", "undefined").
Proof.
  cbn zeta.
  refine (edit_result_feeds_next_request
            (Examples.answering
               (response_of [Examples.text_part "Done.";
                             Examples.image_part (Some "QUJD") None]))
            (Examples.failing Falsy) Examples.source "make it blue"
            (Some "AAAA") "image/png" _ _ (Blob.mk (Some "QUJD") None) "QUJD"
            eq_refl eq_refl eq_refl _ eq_refl eq_refl eq_refl eq_refl).
  exists [Examples.text_part "Done."], (Examples.image_part (Some "QUJD") None), [].
  repeat split.
Defined.

(** X15.  Every way the reading of a response can end: the failure for
    missing candidates exactly when there is no first candidate with
    content and parts; otherwise a refusal quoting a text that is not empty,
    or the failure for a missing image when no text was collected, or a
    result whose data URL carries a payload that is not empty.  Nothing else
    is thrown. *)
Theorem response_outcomes (mimeType : string) (response : Response.t) :
  match read_response mimeType response with
  | inl (ErrorObj message) =>
      (response_parts response = None /\ message = no_candidates_message)
      \/ (exists parts, response_parts response = Some parts
            /\ ((commentary parts = "" /\ message = no_image_message)
                \/ (Js.truthy (commentary parts) = true
                    /\ message = refused_message (commentary parts))))
  | inl _ => False
  | inr result =>
      exists parts mime data,
        response_parts response = Some parts
        /\ Js.truthy data = true
        /\ EditResult.imageUrl result = dataUrl mime data
        /\ EditResult.text result = commentary parts
  end.
Proof.
  unfold read_response.
  destruct (response_parts response) as [parts|]; [|left; split; reflexivity].
  rewrite scan_text. cbn [newText append].
  unfold throw, ret.
  destruct (newImageBase64 (fold_left scan_part parts (mkAcc None "" (Some mimeType))))
    as [data|] eqn:Edata; cbn [Js.truthy_opt].
  - destruct (Js.truthy data) eqn:Htruthy; cbn [negb].
    + exists parts. eexists. exists data. repeat split. exact Htruthy.
    + destruct (commentary parts) as [|c t] eqn:Ec; cbn [Js.truthy];
        right; exists parts; (split; [reflexivity|]); rewrite Ec;
        [left | right]; split; reflexivity.
  - cbn [negb].
    destruct (commentary parts) as [|c t] eqn:Ec; cbn [Js.truthy];
      right; exists parts; (split; [reflexivity|]); rewrite Ec;
      [left | right]; split; reflexivity.
Qed.

(** Whatever is thrown by the remote call, the [catch] block ends in the
    generic error. *)
Lemma on_generate_error_generic (P : Platform) (error : Thrown) :
  on_generate_error P error = inl (ErrorObj generic_message).
Proof.
  unfold on_generate_error.
  destruct (string_message error) as [message|]; [|reflexivity].
  destruct (JSON_parse P message) as [e|errorDetails]; [reflexivity|].
  cbn [bind]. destruct (code_is_429 errorDetails); reflexivity.
Qed.

(** X16.  The two variants of [editImageWithGemini] differ only when the
    remote call fails.  A failure to build the request (data URL, file
    reader, fetch of a blob URL) is thrown by both before any call; a
    response is read by both in the same way; a failure of the call is
    thrown on unchanged by the one and replaced by the generic error by the
    other. *)
Theorem service_variants (P : Platform) (image : Image) (prompt : string) :
  match request_image P image with
  | inl error =>
      editImageWithGemini P image prompt = inl error
      /\ editImageWithGemini_catching P image prompt = inl error
  | inr (base64Data, mimeType) =>
      match generateContent P base64Data mimeType prompt with
      | inr response =>
          editImageWithGemini P image prompt = read_response mimeType response
          /\ editImageWithGemini_catching P image prompt
             = read_response mimeType response
      | inl error =>
          editImageWithGemini P image prompt = inl error
          /\ editImageWithGemini_catching P image prompt
             = inl (ErrorObj generic_message)
      end
  end.
Proof.
  unfold editImageWithGemini, editImageWithGemini_catching.
  destruct (request_image P image) as [error|[base64Data mimeType]]; cbn [bind];
    [split; reflexivity|].
  destruct (generateContent P base64Data mimeType prompt) as [error|response];
    cbn [bind try_catch]; [|split; reflexivity].
  rewrite on_generate_error_generic. split; reflexivity.
Qed.

End ServiceFacts.

(* ================================================================== *)
(** ** More on the normaliser *)

Section NormalizerFacts.

Import Exn Normalizer.
Local Open Scope Q_scope.

Lemma inject_Z_pos (z : Z) : (0 < z)%Z -> 0 < inject_Z z.
Proof. intros H. change 0 with (inject_Z 0). rewrite <- Zlt_Qlt. exact H. Qed.

(** The two sizes and the two offsets, written out. *)
Lemma geometry_wide (w h : Z) :
  (w > h)%Z ->
  newWidth exact w h = 1024 /\ newHeight exact w h = inject_Z h * 1024 / inject_Z w.
Proof.
  intros H. unfold newWidth, newHeight, newSize.
  destruct (w >? h)%Z eqn:E; [split; reflexivity|].
  rewrite Z.gtb_ltb, Z.ltb_ge in E. lia.
Qed.

Lemma geometry_tall (w h : Z) :
  (w <= h)%Z ->
  newWidth exact w h = inject_Z w * 1024 / inject_Z h /\ newHeight exact w h = 1024.
Proof.
  intros H. unfold newWidth, newHeight, newSize.
  destruct (w >? h)%Z eqn:E; [|split; reflexivity].
  apply Z.gtb_lt in E. lia.
Qed.

Lemma offsets (w h : Z) :
  x exact w h = (1024 - newWidth exact w h) / 2
  /\ y exact w h = (1024 - newHeight exact w h) / 2.
Proof. split; reflexivity. Qed.

(** X17.  The drawn rectangle depends on the aspect ratio only, and turning
    the image by a quarter turns the rectangle: for [k, w, h > 0], an image
    of [k * w] by [k * h] is drawn like one of [w] by [h], and an image of
    [h] by [w] gets the width, height and offsets of [w] by [h] with the
    axes exchanged. *)
Theorem geometry_depends_on_ratio (k w h : Z)
  (Hk : (0 < k)%Z) (Hw : (0 < w)%Z) (Hh : (0 < h)%Z) :
  (newWidth exact (k * w) (k * h) == newWidth exact w h
   /\ newHeight exact (k * w) (k * h) == newHeight exact w h
   /\ x exact (k * w) (k * h) == x exact w h
   /\ y exact (k * w) (k * h) == y exact w h)
  /\ (newWidth exact h w == newHeight exact w h
      /\ newHeight exact h w == newWidth exact w h
      /\ x exact h w == y exact w h
      /\ y exact h w == x exact w h).
Proof.
  pose proof (inject_Z_pos k Hk) as HkQ.
  pose proof (inject_Z_pos w Hw) as HwQ.
  pose proof (inject_Z_pos h Hh) as HhQ.
  assert (Hscale : newWidth exact (k * w) (k * h) == newWidth exact w h
                   /\ newHeight exact (k * w) (k * h) == newHeight exact w h).
  { destruct (Z_gt_le_dec w h) as [Hgt|Hle].
    - destruct (geometry_wide w h Hgt) as [-> ->].
      destruct (geometry_wide (k * w) (k * h)) as [-> ->]; [nia|].
      split; [reflexivity|]. rewrite !inject_Z_mult. field. split; lra.
    - destruct (geometry_tall w h Hle) as [-> ->].
      destruct (geometry_tall (k * w) (k * h)) as [-> ->]; [nia|].
      split; [|reflexivity]. rewrite !inject_Z_mult. field. split; lra. }
  assert (Hturn : newWidth exact h w == newHeight exact w h
                  /\ newHeight exact h w == newWidth exact w h).
  { destruct (Z_gt_le_dec w h) as [Hgt|Hle].
    - destruct (geometry_wide w h Hgt) as [-> ->].
      destruct (geometry_tall h w) as [-> ->]; [lia|]. split; reflexivity.
    - destruct (geometry_tall w h Hle) as [-> ->].
      destruct (Z_gt_le_dec h w) as [Hgt'|Hle'].
      + destruct (geometry_wide h w Hgt') as [-> ->]. split; reflexivity.
      + assert (h = w) by lia. subst h.
        destruct (geometry_tall w w Hle) as [-> ->]. split; field; lra. }
  destruct Hscale as [Hsw Hsh]. destruct Hturn as [Htw Hth].
  destruct (offsets (k * w) (k * h)) as [-> ->].
  destruct (offsets w h) as [-> ->]. destruct (offsets h w) as [-> ->].
  split; (split; [|split; [|split]]); try assumption.
  - rewrite Hsw. reflexivity.
  - rewrite Hsh. reflexivity.
  - rewrite Htw. reflexivity.
  - rewrite Hth. reflexivity.
Qed.

Lemma geometry_depends_on_ratio_witness :
  (0 < 2)%Z /\ (0 < 2000)%Z /\ (0 < 1000)%Z
  /\ newHeight exact 4000 2000 == newHeight exact 2000 1000
  /\ newWidth exact 1000 2000 == 512.
Proof.
  assert (Hk : (0 < 2)%Z) by lia.
  assert (Hw : (0 < 2000)%Z) by lia.
  assert (Hh : (0 < 1000)%Z) by lia.
  destruct (geometry_depends_on_ratio 2 2000 1000 Hk Hw Hh)
    as [(_ & Hs & _) (Ht & _)].
  split; [exact Hk|]. split; [exact Hw|]. split; [exact Hh|].
  split; [exact Hs|]. rewrite Ht. reflexivity.
Defined.

(** X18.  The black bars are on one axis only: a landscape image touches
    the left and right edges and has bars above and below, a portrait image
    touches the top and bottom edges and has bars left and right, a square
    image fills the canvas. *)
Theorem bars_on_the_shorter_axis (w h : Z) (Hw : (0 < w)%Z) (Hh : (0 < h)%Z) :
  ((w > h)%Z -> x exact w h == 0 /\ 0 < y exact w h)
  /\ ((w < h)%Z -> 0 < x exact w h /\ y exact w h == 0)
  /\ (w = h -> x exact w h == 0 /\ y exact w h == 0
               /\ newWidth exact w h == 1024 /\ newHeight exact w h == 1024).
Proof.
  pose proof (inject_Z_pos w Hw) as HwQ.
  pose proof (inject_Z_pos h Hh) as HhQ.
  destruct (offsets w h) as [-> ->].
  split; [|split].
  - intros Hgt. destruct (geometry_wide w h Hgt) as [-> ->].
    split; [reflexivity|].
    assert (Hlt : inject_Z h < inject_Z w) by (rewrite <- Zlt_Qlt; lia).
    assert (Hs : inject_Z h * 1024 / inject_Z w < 1024)
      by (apply Qlt_shift_div_r; [exact HwQ | lra]).
    apply Qlt_shift_div_l; lra.
  - intros Hlt'. destruct (geometry_tall w h) as [-> ->]; [lia|].
    split; [|reflexivity].
    assert (Hlt : inject_Z w < inject_Z h) by (rewrite <- Zlt_Qlt; lia).
    assert (Hs : inject_Z w * 1024 / inject_Z h < 1024)
      by (apply Qlt_shift_div_r; [exact HhQ | lra]).
    apply Qlt_shift_div_l; lra.
  - intros <-. destruct (geometry_tall w w) as [-> ->]; [lia|].
    repeat split; try reflexivity; field; lra.
Qed.

Lemma bars_on_the_shorter_axis_witness :
  (0 < 600)%Z /\ (0 < 800)%Z /\ (600 < 800)%Z
  /\ 0 < x exact 600 800 /\ y exact 600 800 == 0.
Proof.
  assert (Hw : (0 < 600)%Z) by lia.
  assert (Hh : (0 < 800)%Z) by lia.
  assert (Hlt : (600 < 800)%Z) by lia.
  destruct (bars_on_the_shorter_axis 600 800 Hw Hh) as (_ & Hp & _).
  split; [exact Hw|]. split; [exact Hh|]. split; [exact Hlt|]. exact (Hp Hlt).
Defined.

End NormalizerFacts.

(* ================================================================== *)
(** ** The application shell *)

Section AppFacts.

Import App.

(** X19.  The editor never sees its image replaced: an event changes the
    state either from no image to the first file of a non-empty selection or
    drop, or from an image to no image by "Start Over"; an event that leaves
    an image in place leaves the same image, and a selection or drop
    without files changes nothing. *)
Theorem image_is_never_replaced (s : State) (e : Event) :
  (forall file file', s = Some file -> step s e = Some file' -> file' = file)
  /\ (forall file, s = None -> step s e = Some file ->
        exists rest, e = FileChange (Some (file :: rest))
                     \/ e = FileDrop (Some (file :: rest)))
  /\ (forall file, s = Some file -> step s e = None -> e = StartOver)
  /\ (step s (FileChange None) = s /\ step s (FileChange (Some [])) = s
      /\ step s (FileDrop None) = s /\ step s (FileDrop (Some [])) = s)
  /\ (view (step s e) = Uploader <-> hasImage (step s e) = false).
Proof.
  split; [|split; [|split; [|split]]].
  - intros file file' -> H. destruct e as [files|files|]; cbn in H; unfold handleResetApp, handleImageUpload in H; congruence.
  - intros file -> H. destruct e as [files|files|]; cbn in H; unfold handleResetApp, handleImageUpload in H; [| |discriminate].
    + destruct files as [[|f rest]|]; cbn in H; unfold handleResetApp, handleImageUpload in H; try discriminate.
      injection H as ->. exists rest. auto.
    + destruct files as [[|f rest]|]; cbn in H; unfold handleResetApp, handleImageUpload in H; try discriminate.
      injection H as ->. exists rest. auto.
  - intros file -> H. destruct e as [files|files|]; cbn in H; unfold handleResetApp, handleImageUpload in H; [discriminate..|reflexivity].
  - destruct s; repeat split.
  - destruct (step s e); cbn; split; congruence.
Qed.

Lemma image_is_never_replaced_witness :
  let f := Service.File.mk "image/png" (inr "data:image/png;base64,AAAA") in
  let g := Service.File.mk "image/jpeg" (inr "data:image/jpeg;base64,BBBB") in
  (forall file', step (Some f) (FileChange (Some [g])) = Some file' -> file' = f)
  /\ run [FileChange (Some [f]); FileDrop (Some [g]); StartOver; FileDrop (Some [g])] init
     = Some g.
Proof.
  cbn zeta. split; [|reflexivity].
  intros file'.
  exact (proj1 (image_is_never_replaced
                  (Some (Service.File.mk "image/png" (inr "data:image/png;base64,AAAA")))
                  (FileChange (Some [Service.File.mk "image/jpeg"
                                       (inr "data:image/jpeg;base64,BBBB")])))
               _ file' eq_refl).
Defined.

End AppFacts.

(* ================================================================== *)
(** ** The offline cache *)

Section WorkerFacts.

Import Worker.
Local Open Scope list_scope.

(** *** One cache *)

Lemma cache_match_app (a b : Cache) (u : string) :
  cache_match (a ++ b) u
    = match cache_match a u with Some r => Some r | None => cache_match b u end.
Proof.
  induction a as [|[k r] a IH]; cbn; [reflexivity|].
  destruct (String.eqb k u); [reflexivity | exact IH].
Qed.

Lemma cache_match_filter_same (c : Cache) (u : string) :
  cache_match (filter (fun kr => negb (String.eqb (fst kr) u)) c) u = None.
Proof.
  induction c as [|[k r] c IH]; cbn; [reflexivity|].
  destruct (String.eqb k u) eqn:E; cbn; [exact IH|]. rewrite E. exact IH.
Qed.

Lemma cache_match_filter_other (c : Cache) (u v : string) :
  String.eqb u v = false ->
  cache_match (filter (fun kr => negb (String.eqb (fst kr) u)) c) v = cache_match c v.
Proof.
  intros Huv. induction c as [|[k r] c IH]; cbn; [reflexivity|].
  destruct (String.eqb k u) eqn:E; cbn.
  - apply String.eqb_eq in E. subst k. rewrite Huv. exact IH.
  - destruct (String.eqb k v); [reflexivity | exact IH].
Qed.

(** What is put is found, and nothing else changes. *)
Lemma cache_match_put (c : Cache) (u v : string) (r : Response) :
  cache_match (cache_put u r c) v
    = if String.eqb u v then Some r else cache_match c v.
Proof.
  unfold cache_put. rewrite cache_match_app.
  destruct (String.eqb u v) eqn:E.
  - apply String.eqb_eq in E. subst v. rewrite cache_match_filter_same.
    cbn. now rewrite String.eqb_refl.
  - rewrite (cache_match_filter_other c u v E). cbn. rewrite E.
    destruct (cache_match c v); reflexivity.
Qed.

(** *** The storage *)

Lemma caches_get_app_none (st : CacheStorage) (name : string) (c : Cache) :
  caches_get st name = None ->
  caches_get (st ++ [(name, c)]) name = Some c.
Proof.
  induction st as [|[k c'] st IH]; cbn; [now rewrite String.eqb_refl|].
  destruct (String.eqb k name); [discriminate | exact IH].
Qed.

Lemma caches_match_app_empty (st : CacheStorage) (name u : string) :
  caches_match (st ++ [(name, [])]) u = caches_match st u.
Proof.
  induction st as [|[k c] st IH]; cbn; [reflexivity|].
  destruct (cache_match c u); [reflexivity | exact IH].
Qed.

(** Opening a cache makes it exist and changes no match. *)
Lemma caches_open_spec (st : CacheStorage) (name u : string) :
  caches_get (caches_open name st) name <> None
  /\ caches_match (caches_open name st) u = caches_match st u.
Proof.
  unfold caches_open. destruct (caches_get st name) as [c|] eqn:E.
  - split; [congruence | reflexivity].
  - split; [|apply caches_match_app_empty].
    pose proof (caches_get_app_none st name [] E) as H.
    intros Hc. pose proof (eq_trans (eq_sym H) Hc) as Habs. discriminate Habs.
Qed.

(** A URL that no cache holds is found after it is put in an existing
    cache; the other URLs are found as before. *)
Lemma caches_match_update_put (st : CacheStorage) (name u v : string) (r : Response) :
  caches_get st name <> None ->
  caches_match st u = None ->
  caches_match (caches_update name (cache_put u r) st) v
    = if String.eqb u v then Some r else caches_match st v.
Proof.
  induction st as [|[k c] st IH]; cbn; intros Hget Hmiss; [congruence|].
  destruct (cache_match c u) eqn:Ec; [discriminate|].
  destruct (String.eqb k name) eqn:Ek; cbn.
  - rewrite cache_match_put. destruct (String.eqb u v) eqn:E; [reflexivity|].
    reflexivity.
  - specialize (IH Hget Hmiss).
    destruct (String.eqb u v) eqn:E.
    + apply String.eqb_eq in E. subst v. rewrite Ec. exact IH.
    + destruct (cache_match c v); [reflexivity | exact IH].
Qed.

(** What one request does to the matches: at most the URL of the request
    gets a match it did not have. *)
Lemma on_fetch_matches (net : Network) (request : Request) (st : CacheStorage)
  (v : string) :
  caches_match (snd (on_fetch net request st)) v = caches_match st v
  \/ (caches_match st v = None /\ v = url request
      /\ caches_match (snd (on_fetch net request st)) v = net v).
Proof.
  unfold on_fetch.
  destruct (negb (String.eqb (method request) "GET")); [left; reflexivity|].
  destruct (caches_match st (url request)) as [cached|] eqn:Ematch; [left; reflexivity|].
  destruct (net (url request)) as [nr|] eqn:Enet; [|left; reflexivity].
  destruct (caches_open_spec st CACHE_NAME (url request)) as [Hget Hsame].
  cbn [snd].
  destruct (ok nr || String.eqb (type nr) "opaque");
    [|left; apply caches_open_spec].
  destruct (storable nr); [|left; apply caches_open_spec].
  rewrite caches_match_update_put by (try exact Hget; rewrite Hsame; exact Ematch).
  destruct (String.eqb_spec (url request) v) as [<-|Hne].
  - right. split; [exact Ematch|]. split; [reflexivity | now rewrite Enet].
  - left. apply caches_open_spec.
Qed.

Lemma on_fetch_keeps (net : Network) (request : Request) (st : CacheStorage)
  (v : string) (r : Response) :
  caches_match st v = Some r ->
  caches_match (snd (on_fetch net request st)) v = Some r.
Proof.
  intros H. destruct (on_fetch_matches net request st v) as [->|[Hn _]];
    [exact H | congruence].
Qed.

Lemma serve_keeps (requests : list (Network * Request)) :
  forall st v r, caches_match st v = Some r -> caches_match (serve requests st) v = Some r.
Proof.
  induction requests as [|[net request] requests IH]; intros st v r H; [exact H|].
  cbn. apply IH. apply on_fetch_keeps. exact H.
Qed.

(** X20.  Cache first, and for good: a GET whose URL some cache holds is
    answered with the cached response, without the network and without a
    change of the storage; and whatever requests are served afterwards, on
    whatever network, the URL keeps that response.  A request of another
    method is not answered by the worker and changes nothing. *)
Theorem cached_response_is_kept
  (net : Network) (u : string) (r : Response) (st : CacheStorage)
  (requests : list (Network * Request)) (other : Request)
  (Hcached : caches_match st u = Some r) :
  on_fetch net (get u) st = (Respond (Some r), st)
  /\ caches_match (serve requests st) u = Some r
  /\ on_fetch net (get u) (serve requests st) = (Respond (Some r), serve requests st)
  /\ (method other <> "GET" -> on_fetch net other st = (NotHandled, st)).
Proof.
  assert (Hhit : forall st', caches_match st' u = Some r ->
                   on_fetch net (get u) st' = (Respond (Some r), st')).
  { intros st' H. unfold on_fetch. cbn [get method url String.eqb Ascii.eqb Bool.eqb negb].
    cbn. rewrite H. reflexivity. }
  pose proof (serve_keeps requests st u r Hcached) as Hkept.
  split; [exact (Hhit st Hcached)|]. split; [exact Hkept|].
  split; [exact (Hhit _ Hkept)|].
  intros Hm. unfold on_fetch.
  destruct (String.eqb_spec (method other) "GET") as [E|_]; [contradiction | reflexivity].
Qed.

Lemma cached_response_is_kept_witness :
  let r := mkResponse 200 "basic" "<html>" in
  let fresh := mkResponse 200 "basic" "<html lang=en>" in
  let st := [(CACHE_NAME, [("/", r)])] in
  caches_match st "/" = Some r
  /\ on_fetch (fun _ => Some fresh) (get "/") st = (Respond (Some r), st)
  /\ on_fetch (fun _ => Some fresh) (mkRequest "POST" "/") st = (NotHandled, st).
Proof.
  cbn zeta.
  destruct (cached_response_is_kept (fun _ => Some (mkResponse 200 "basic" "<html lang=en>"))
              "/" (mkResponse 200 "basic" "<html>")
              [(CACHE_NAME, [("/", mkResponse 200 "basic" "<html>")])]
              [] (mkRequest "POST" "/") eq_refl) as (Hhit & _ & _ & Hpost).
  split; [reflexivity|]. split; [exact Hhit|]. apply Hpost. discriminate.
Defined.

(** X21.  What is fetched once is there offline: a GET that no cache holds
    is answered from the network; when the response is [ok] or opaque, and
    not partial, it is stored, and the same GET is answered with it from
    then on with the network down, also after any further requests. *)
Theorem fetched_response_is_served_offline
  (net : Network) (u : string) (r : Response) (st : CacheStorage)
  (requests : list (Network * Request))
  (Hmiss : caches_match st u = None)
  (Hnet : net u = Some r)
  (Hcacheable : ok r || String.eqb (type r) "opaque" = true)
  (Hstorable : storable r = true) :
  let st' := snd (on_fetch net (get u) st) in
  fst (on_fetch net (get u) st) = Respond (Some r)
  /\ on_fetch offline (get u) st' = (Respond (Some r), st')
  /\ on_fetch offline (get u) (serve requests st')
     = (Respond (Some r), serve requests st').
Proof.
  cbn zeta.
  assert (Hfst : fst (on_fetch net (get u) st) = Respond (Some r)).
  { unfold on_fetch. cbn [get method url]. cbn [String.eqb Ascii.eqb Bool.eqb negb].
    cbn match. rewrite Hmiss, Hnet. reflexivity. }
  assert (Hnow : caches_match (snd (on_fetch net (get u) st)) u = Some r).
  { unfold on_fetch. cbn [get method url]. cbn [String.eqb Ascii.eqb Bool.eqb negb].
    cbn match. rewrite Hmiss, Hnet, Hcacheable, Hstorable. cbn [snd].
    destruct (caches_open_spec st CACHE_NAME u) as [Hget Hsame].
    rewrite caches_match_update_put by (try exact Hget; rewrite Hsame; exact Hmiss).
    now rewrite String.eqb_refl. }
  assert (Hhit : forall st0, caches_match st0 u = Some r ->
                   on_fetch offline (get u) st0 = (Respond (Some r), st0)).
  { intros st0 H. unfold on_fetch. cbn [get method url].
    cbn [String.eqb Ascii.eqb Bool.eqb negb]. cbn match. rewrite H. reflexivity. }
  split; [exact Hfst|]. split; [exact (Hhit _ Hnow)|].
  apply Hhit. apply serve_keeps. exact Hnow.
Qed.

Lemma fetched_response_is_served_offline_witness :
  let r := mkResponse 200 "basic" "body{}" in
  let net := fun u => if String.eqb u "/app.css" then Some r else None in
  let st' := snd (on_fetch net (get "/app.css") []) in
  st' = [(CACHE_NAME, [("/app.css", r)])]
  /\ on_fetch offline (get "/app.css") st' = (Respond (Some r), st').
Proof.
  cbn zeta. split; [reflexivity|].
  exact (proj1 (proj2 (fetched_response_is_served_offline
           (fun u => if String.eqb u "/app.css"
                     then Some (mkResponse 200 "basic" "body{}") else None)
           "/app.css" (mkResponse 200 "basic" "body{}") [] []
           eq_refl eq_refl eq_refl eq_refl))).
Defined.

(** X22.  What is not stored: a response that is neither [ok] nor opaque
    (an error page), or that is partial, is passed to the page and leaves
    every URL matched as before; when the network fails the page gets no
    response and the storage is as it was.  No request changes the match of
    a URL other than its own. *)
Theorem unstorable_response_is_not_cached
  (net : Network) (u v : string) (r : Response) (st : CacheStorage)
  (Hmiss : caches_match st u = None) :
  (net u = Some r ->
   ok r || String.eqb (type r) "opaque" = false \/ storable r = false ->
   fst (on_fetch net (get u) st) = Respond (Some r)
   /\ caches_match (snd (on_fetch net (get u) st)) u = None)
  /\ (net u = None -> on_fetch net (get u) st = (Respond None, st))
  /\ (v <> u -> caches_match (snd (on_fetch net (get u) st)) v = caches_match st v).
Proof.
  assert (Hunfold : on_fetch net (get u) st
            = match net u with
              | Some nr =>
                  (Respond (Some nr),
                   if ok nr || String.eqb (type nr) "opaque"
                   then if storable nr
                        then caches_update CACHE_NAME (cache_put u nr)
                               (caches_open CACHE_NAME st)
                        else caches_open CACHE_NAME st
                   else caches_open CACHE_NAME st)
              | None => (Respond None, st)
              end).
  { unfold on_fetch. cbn [get method url]. cbn [String.eqb Ascii.eqb Bool.eqb negb].
    cbn match. rewrite Hmiss. reflexivity. }
  destruct (caches_open_spec st CACHE_NAME u) as [_ Hsame].
  split; [|split].
  - intros Hnet Hno. rewrite Hunfold, Hnet. cbn [fst snd]. split; [reflexivity|].
    destruct Hno as [-> | ->]; [|destruct (ok r || String.eqb (type r) "opaque")];
      rewrite Hsame; exact Hmiss.
  - intros Hnet. rewrite Hunfold, Hnet. reflexivity.
  - intros Hne. destruct (on_fetch_matches net (get u) st v) as [H|(_ & H & _)];
      [exact H | contradiction].
Qed.

Lemma unstorable_response_is_not_cached_witness :
  let r := mkResponse 404 "basic" "Not found" in
  on_fetch (fun _ => Some r) (get "/nope") [] = (Respond (Some r), [(CACHE_NAME, [])])
  /\ on_fetch offline (get "/nope") [] = (Respond None, []).
Proof.
  cbn zeta.
  destruct (unstorable_response_is_not_cached
              (fun _ => Some (mkResponse 404 "basic" "Not found"))
              "/nope" "/" (mkResponse 404 "basic" "Not found") [] eq_refl)
    as [H _].
  destruct (H eq_refl (or_introl eq_refl)) as [_ _].
  split; reflexivity.
Defined.

(** *** Activation *)

Lemma filter_all {A} (l : list A) : filter (fun _ => true) l = l.
Proof. induction l as [|a l IH]; cbn; [reflexivity | now rewrite IH]. Qed.

Lemma filter_twice {A} (f g : A -> bool) (l : list A) :
  filter f (filter g l) = filter (fun a => g a && f a) l.
Proof.
  induction l as [|a l IH]; cbn; [reflexivity|].
  destruct (g a); cbn; [destruct (f a)|]; now rewrite IH.
Qed.

(** Deleting, name by name, the caches of the names listed. *)
Lemma delete_others (names : list string) :
  forall st,
    fold_left
      (fun st cacheName =>
         if negb (String.eqb cacheName CACHE_NAME) then caches_delete cacheName st else st)
      names st
    = filter
        (fun kc => negb (existsb (fun n => negb (String.eqb n CACHE_NAME)
                                           && String.eqb (fst kc) n) names))
        st.
Proof.
  induction names as [|n names IH]; intros st; cbn [fold_left existsb].
  - symmetry. apply filter_all.
  - rewrite IH. destruct (String.eqb n CACHE_NAME); cbn [negb andb orb]; [reflexivity|].
    unfold caches_delete. rewrite filter_twice. apply filter_ext.
    intros kc. now rewrite negb_orb.
Qed.

(** Activation keeps the caches of the current name and no other. *)
Lemma on_activate_filter (st : CacheStorage) :
  on_activate st = filter (fun kc => String.eqb (fst kc) CACHE_NAME) st.
Proof.
  unfold on_activate, caches_keys. rewrite delete_others.
  apply filter_ext_in. intros [k c] Hin. cbn [fst].
  destruct (String.eqb_spec k CACHE_NAME) as [->|Hne].
  - apply negb_true_iff. apply not_true_iff_false. intros H.
    apply existsb_exists in H as (n & _ & H). apply andb_true_iff in H as [Hn He].
    apply String.eqb_eq in He. subst n. cbn in Hn. discriminate.
  - apply negb_false_iff. apply existsb_exists. exists k. split.
    + apply in_map_iff. exists (k, c). auto.
    + rewrite String.eqb_refl, andb_true_r. apply negb_true_iff.
      now apply String.eqb_neq.
Qed.

Lemma caches_get_filter_name (st : CacheStorage) (current name : string) :
  caches_get (filter (fun kc => String.eqb (fst kc) current) st) name
    = if String.eqb name current then caches_get st current else None.
Proof.
  induction st as [|[k c] st IH]; cbn [filter caches_get fst];
    [now destruct (String.eqb name current)|].
  destruct (String.eqb_spec k current) as [->|Hk]; cbn [caches_get].
  - rewrite String.eqb_sym. destruct (String.eqb name current); [reflexivity | exact IH].
  - exact IH.
Qed.

Lemma caches_match_in (st : CacheStorage) (u : string) (r : Response) :
  caches_match st u = Some r ->
  exists name cache, In (name, cache) st /\ cache_match cache u = Some r.
Proof.
  induction st as [|[k c] st IH]; cbn; [discriminate|].
  destruct (cache_match c u) as [r'|] eqn:E.
  - intros [= <-]. exists k, c. auto.
  - intros H. destruct (IH H) as (name & cache & Hin & Hm). exists name, cache. auto.
Qed.

(** X23.  Activation deletes every cache of another name and nothing else:
    afterwards every cache has the current name, the current cache is the
    one it was, a match can only come from a cache of the current name that
    was there before, and a second activation changes nothing. *)
Theorem activation_keeps_current_cache_only (st : CacheStorage) (name u : string)
  (r : Response) :
  Forall (fun n => n = CACHE_NAME) (caches_keys (on_activate st))
  /\ caches_get (on_activate st) CACHE_NAME = caches_get st CACHE_NAME
  /\ (name <> CACHE_NAME -> caches_get (on_activate st) name = None)
  /\ (caches_match (on_activate st) u = Some r ->
        exists cache, In (CACHE_NAME, cache) st /\ cache_match cache u = Some r)
  /\ on_activate (on_activate st) = on_activate st.
Proof.
  rewrite !on_activate_filter.
  split; [|split; [|split; [|split]]].
  - unfold caches_keys. apply Forall_forall. intros n Hn.
    apply in_map_iff in Hn as ([k c] & <- & Hin).
    apply filter_In in Hin as [_ Hk]. now apply String.eqb_eq in Hk.
  - rewrite caches_get_filter_name. now rewrite String.eqb_refl.
  - intros Hne. rewrite caches_get_filter_name.
    apply String.eqb_neq in Hne. now rewrite Hne.
  - intros H. apply caches_match_in in H as (k & cache & Hin & Hm).
    apply filter_In in Hin as [Hin Hk]. cbn in Hk. apply String.eqb_eq in Hk. subst k.
    exists cache. auto.
  - rewrite filter_twice. apply filter_ext. intros kc. apply andb_diag.
Qed.

Lemma activation_keeps_current_cache_only_witness :
  let old := ("photon-pwa-v0", [("/", mkResponse 200 "basic" "old")]) in
  let cur := (CACHE_NAME, [("/", mkResponse 200 "basic" "new")]) in
  "photon-pwa-v0" <> CACHE_NAME
  /\ on_activate [old; cur] = [cur]
  /\ caches_get (on_activate [old; cur]) "photon-pwa-v0" = None.
Proof.
  cbn zeta.
  assert (Hne : "photon-pwa-v0" <> CACHE_NAME) by discriminate.
  destruct (activation_keeps_current_cache_only
              [("photon-pwa-v0", [("/", mkResponse 200 "basic" "old")]);
               (CACHE_NAME, [("/", mkResponse 200 "basic" "new")])]
              "photon-pwa-v0" "/" (mkResponse 200 "basic" "new"))
    as (_ & _ & Hgone & _).
  split; [exact Hne|]. split; [reflexivity | exact (Hgone Hne)].
Defined.

(** *** Installation *)

Lemma fold_put_keeps (entries : list (string * Response)) :
  forall cache u,
    cache_match cache u <> None ->
    cache_match (fold_left (fun c kr => cache_put (fst kr) (snd kr) c) entries cache) u
      <> None.
Proof.
  induction entries as [|[k r] entries IH]; intros cache u H; [exact H|].
  cbn [fold_left fst snd]. apply IH. rewrite cache_match_put.
  destruct (String.eqb k u); [discriminate | exact H].
Qed.

Lemma fold_put_has (entries : list (string * Response)) :
  forall cache u,
    In u (map fst entries) ->
    cache_match (fold_left (fun c kr => cache_put (fst kr) (snd kr) c) entries cache) u
      <> None.
Proof.
  induction entries as [|[k r] entries IH]; intros cache u Hin; [destruct Hin|].
  cbn [fold_left fst snd]. cbn in Hin. destruct Hin as [->|Hin].
  - apply fold_put_keeps. rewrite cache_match_put, String.eqb_refl. discriminate.
  - apply IH. exact Hin.
Qed.

Lemma fetch_all_urls (net : Network) (urls : list string) :
  forall entries, fetch_all net urls = Some entries -> map fst entries = urls.
Proof.
  induction urls as [|u urls IH]; cbn; intros entries H; [now injection H as <-|].
  destruct (net u) as [r|]; [|discriminate].
  destruct (fetch_all net urls) as [rs|]; [|discriminate].
  destruct (ok r && storable r); [|discriminate].
  injection H as <-. cbn. now rewrite (IH rs eq_refl).
Qed.

Lemma fetch_all_iff (net : Network) (urls : list string) :
  fetch_all net urls <> None <->
  forall u, In u urls -> exists r, net u = Some r /\ ok r = true /\ storable r = true.
Proof.
  induction urls as [|u urls IH]; cbn [fetch_all].
  - split; [intros _ v [] | discriminate].
  - split.
    + intros H v [<-|Hin].
      * destruct (net u) as [r|]; [|congruence]. exists r.
        destruct (fetch_all net urls); [|congruence].
        destruct (ok r && storable r) eqn:E; [|congruence].
        apply andb_true_iff in E. tauto.
      * apply IH; [|exact Hin].
        destruct (net u); [|congruence]. destruct (fetch_all net urls); congruence.
    + intros H. destruct (H u (or_introl eq_refl)) as (r & -> & Hok & Hst).
      assert (Hrest : fetch_all net urls <> None)
        by (apply IH; intros v Hv; apply H; right; exact Hv).
      destruct (fetch_all net urls); [|congruence].
      rewrite Hok, Hst. discriminate.
Qed.

Lemma caches_match_replace (st : CacheStorage) (name u : string) (cache' : Cache) :
  caches_get st name <> None ->
  cache_match cache' u <> None ->
  caches_match (caches_update name (fun _ => cache') st) u <> None.
Proof.
  induction st as [|[k c] st IH]; cbn; intros Hget Hm; [congruence|].
  destruct (String.eqb k name); cbn.
  - destruct (cache_match cache' u); [discriminate | congruence].
  - destruct (cache_match c u); [discriminate|]. apply IH; assumption.
Qed.

(** X24.  Installation is all or nothing: it succeeds exactly when the
    three URLs of the application shell are all fetched with an [ok]
    response; then each of them is answered by the worker with the network
    down; otherwise the promise given to [waitUntil] is rejected and every
    URL is matched as before. *)
Theorem install_is_all_or_nothing (net : Network) (st : CacheStorage) (u : string) :
  (snd (on_install net st) = true <->
     forall shell, In shell APP_SHELL_URLS ->
       exists r, net shell = Some r /\ ok r = true /\ storable r = true)
  /\ (snd (on_install net st) = true -> In u APP_SHELL_URLS ->
      exists r, on_fetch offline (get u) (fst (on_install net st))
                = (Respond (Some r), fst (on_install net st)))
  /\ (snd (on_install net st) = false ->
      caches_match (fst (on_install net st)) u = caches_match st u).
Proof.
  unfold on_install.
  destruct (caches_open_spec st CACHE_NAME u) as [Hget Hsame].
  destruct (caches_get (caches_open CACHE_NAME st) CACHE_NAME) as [cache|] eqn:Ec;
    [|congruence].
  unfold cache_addAll.
  destruct (fetch_all net APP_SHELL_URLS) as [entries|] eqn:Efetch; cbn [fst snd].
  - split; [split; [intros _; apply fetch_all_iff; congruence | reflexivity]|].
    split; [|discriminate].
    intros _ Hin.
    assert (Hm : caches_match
                   (caches_update CACHE_NAME
                      (fun _ => fold_left (fun c kr => cache_put (fst kr) (snd kr) c)
                                  entries cache)
                      (caches_open CACHE_NAME st)) u <> None).
    { apply caches_match_replace; [rewrite Ec; discriminate|].
      apply fold_put_has. rewrite (fetch_all_urls net _ entries Efetch). exact Hin. }
    match type of Hm with caches_match ?s u <> None =>
      destruct (caches_match s u) as [r|] eqn:Er; [|congruence];
      exists r; unfold on_fetch; cbn [get method url];
      cbn [String.eqb Ascii.eqb Bool.eqb negb]; cbn match; rewrite Er; reflexivity
    end.
  - split; [split; [discriminate | intros H; apply fetch_all_iff in H; congruence]|].
    split; [discriminate|]. intros _. exact Hsame.
Qed.

Lemma install_is_all_or_nothing_witness :
  let page := mkResponse 200 "basic" "<html>" in
  let missing := mkResponse 404 "basic" "" in
  let online := fun _ : string => Some page in
  let broken := fun u => if String.eqb u "/manifest.json" then Some missing else Some page in
  snd (on_install online []) = true
  /\ In "/index.html" APP_SHELL_URLS
  /\ on_fetch offline (get "/index.html") (fst (on_install online []))
     = (Respond (Some page), fst (on_install online []))
  /\ on_install broken [] = ([(CACHE_NAME, [])], false).
Proof.
  cbn zeta.
  destruct (install_is_all_or_nothing (fun _ : string => Some (mkResponse 200 "basic" "<html>"))
              [] "/index.html") as (_ & Hok & _).
  assert (Hin : In "/index.html" APP_SHELL_URLS) by (right; left; reflexivity).
  destruct (Hok eq_refl Hin) as [r Hr].
  split; [reflexivity|]. split; [exact Hin|]. split; reflexivity.
Defined.

End WorkerFacts.
